(** * LIVE-PREVIEW authentication: credential check, refresh-token rotation,
      token endpoint

    A shallow embedding of [lib/auth/utils.ts], [lib/auth/options.ts] and the
    route [app/api/auth/token] (handlers [POST] and [DELETE]).

    Conventions of the embedding:
    - JavaScript strings are modelled as byte strings ([string]); the
      operations below agree with JavaScript on ASCII text.
    - Timestamps ([Date], [Date.now()]) are integers, milliseconds since the
      epoch.
    - A rejected promise or a thrown exception is the [Err] case of [Result].
    - Everything the code awaits (Prisma calls, the clock, the random source,
      the JWT signer) is an effect of the program tree [Prog]; a program is run
      to completion by [run], or interleaved with others by [sched]. *)

From Stdlib Require Import ZArith Ascii String.
From Stdlib.Strings Require Import Byte.
From stdpp Require Import base option list gmap strings pretty.

Local Open Scope string_scope.

(** ** Outcomes *)

(** What a [throw] or a rejected promise carries. *)
Inductive Exn : Type :=
  | Error (message : string)      (* new Error(message), thrown by this code *)
  | URIError                      (* decodeURIComponent on a malformed escape *)
  | TypeError                     (* property read on null *)
  | PrismaKnownError (code : string) (* P2002 unique, P2003 foreign key, P2025 not found *)
  | PrismaValidationError         (* a required field of the row is missing *)
  | StoreFault                    (* the store could not be reached *)
  | JOSEError.                    (* the signer refused the key or the claims *)

Inductive Result (A : Type) : Type :=
  | Ok (a : A)
  | Err (e : Exn).
Arguments Ok {A} a.
Arguments Err {A} e.

Definition isOk {A} (r : Result A) : bool :=
  match r with Ok _ => true | Err _ => false end.

(** ** JavaScript string primitives *)

Module Js.

(** [s.split(sep)] for a one-character separator: never empty,
    [""] splits to [[""]]. *)
Fixpoint split (sep : ascii) (s : string) : list string :=
  match s with
  | "" => [""]
  | String c rest =>
      if Ascii.eqb c sep then "" :: split sep rest
      else match split sep rest with
           | piece :: pieces => String c piece :: pieces
           | [] => [String c ""]
           end
  end.

Definition lowerChar (c : ascii) : ascii :=
  let n := nat_of_ascii c in
  if (65 <=? n)%nat && (n <=? 90)%nat then ascii_of_nat (n + 32) else c.

(** [s.toLowerCase()] *)
Fixpoint toLowerCase (s : string) : string :=
  match s with
  | "" => ""
  | String c rest => String (lowerChar c) (toLowerCase rest)
  end.

(** White space removed by [trim]: TAB, LF, VT, FF, CR and space. *)
Definition isWhite (c : ascii) : bool :=
  let n := nat_of_ascii c in
  ((9 <=? n)%nat && (n <=? 13)%nat) || (n =? 32)%nat.

Fixpoint trimStart (s : string) : string :=
  match s with
  | "" => ""
  | String c rest => if isWhite c then trimStart rest else s
  end.

(** [s.trim()] *)
Definition trim (s : string) : string :=
  String.rev (trimStart (String.rev (trimStart s))).

(** Truthiness of a string: every string but the empty one. *)
Definition truthy (s : string) : bool :=
  match s with "" => false | _ => true end.

(** Truthiness of a value that may be [undefined] or [null]. *)
Definition truthyOpt (o : option string) : bool :=
  match o with Some s => truthy s | None => false end.

(** [xs.includes(x)] where [x] may be [undefined]; the array holds strings
    only, so [undefined] is never found. *)
Definition includes (xs : list string) (x : option string) : bool :=
  match x with
  | Some s => existsb (String.eqb s) xs
  | None => false
  end.

(** [key === other] where [key] may be [undefined]. *)
Definition strictEq (key : option string) (other : string) : bool :=
  match key with Some k => String.eqb k other | None => false end.

End Js.

(** ** [Buffer.toString("hex")] *)

Definition hexDigit (n : N) : ascii :=
  match n with
  | 0 => "0" | 1 => "1" | 2 => "2" | 3 => "3" | 4 => "4" | 5 => "5"
  | 6 => "6" | 7 => "7" | 8 => "8" | 9 => "9" | 10 => "a" | 11 => "b"
  | 12 => "c" | 13 => "d" | 14 => "e" | _ => "f"
  end%N%char.

Fixpoint toHex (buf : list byte) : string :=
  match buf with
  | [] => ""
  | b :: rest =>
      let n := Byte.to_N b in
      String (hexDigit (n / 16)) (String (hexDigit (n mod 16)) (toHex rest))
  end.

(** Value of a lower-case hexadecimal digit; used to read [toHex] back. *)
Definition hexValue (c : ascii) : option N :=
  let n := N_of_ascii c in
  if (48 <=? n)%N && (n <=? 57)%N then Some (n - 48)%N
  else if (97 <=? n)%N && (n <=? 102)%N then Some (n - 87)%N
  else None.

Definition isHexDigit (c : ascii) : bool :=
  match hexValue c with Some _ => true | None => false end.

Fixpoint fromHex (s : string) : option (list byte) :=
  match s with
  | "" => Some []
  | String hi (String lo rest) =>
      match hexValue hi, hexValue lo, fromHex rest with
      | Some h, Some l, Some bs =>
          match Byte.of_N (16 * h + l) with
          | Some b => Some (b :: bs)
          | None => None
          end
      | _, _, _ => None
      end
  | String _ "" => None
  end.

Fixpoint allChars (p : ascii -> bool) (s : string) : bool :=
  match s with
  | "" => true
  | String c rest => p c && allChars p rest
  end.

(** ** Data model *)

(** Modelled from the spec: the Prisma schema is not among the sources. A row
    of the [User] table holds an opaque unique [id], a unique [email], an
    optional password hash and the profile fields; only the fields this code
    reads are kept. *)
Module User.
Record t : Type := mk {
  id : string;
  email : string;
  name : option string;
  givenName : option string;
  familyName : option string;
  image : option string;
  preferences : option string;
  passwordHash : option string
}.
End User.

(** Modelled from the spec: the Prisma schema is not among the sources. A row
    of the [RefreshToken] table holds the unique [token] value (the code
    looks rows up with [findUnique] on it), the owning [userId] (the code
    follows the relation with [include: { user: true }]), the absolute
    [expiresAt], and [revokedAt], null until the token is revoked. *)
Module RefreshToken.
Record t : Type := mk {
  userId : string;
  token : string;
  expiresAt : Z;
  revokedAt : option Z
}.

(** The row after [data: { revokedAt: at }]. *)
Definition withRevokedAt (at_ : Z) (r : t) : t :=
  mk (userId r) (token r) (expiresAt r) (Some at_).
End RefreshToken.

(** The claims given to [SignJWT]. *)
Module Claims.
Record t : Type := mk {
  userId : string;
  email : option string;
  type : string
}.
End Claims.

(** The NextAuth token object ([CustomJWT]); an absent field is [None]. *)
Module JWT.
Record t : Type := mk {
  userId : option string;
  email : option string;
  name : option string;
  givenName : option string;
  familyName : option string;
  image : option string;
  preferences : option string;
  accessToken : option string;
  refreshToken : option string;
  refreshTokenExpires : option Z;
  error : option string
}.

Definition empty : t :=
  mk None None None None None None None None None None None.

Definition over {A} (new old : option A) : option A :=
  match new with Some _ => new | None => old end.

(** [Object.assign(token, session)]: every field present in [session]
    replaces the field of [token]. *)
Definition assign (token session : t) : t :=
  mk (over (userId session) (userId token))
     (over (email session) (email token))
     (over (name session) (name token))
     (over (givenName session) (givenName token))
     (over (familyName session) (familyName token))
     (over (image session) (image token))
     (over (preferences session) (preferences token))
     (over (accessToken session) (accessToken token))
     (over (refreshToken session) (refreshToken token))
     (over (refreshTokenExpires session) (refreshTokenExpires token))
     (over (error session) (error token)).

Definition withAccessToken (a : string) (k : t) : t :=
  mk (userId k) (email k) (name k) (givenName k) (familyName k) (image k)
     (preferences k) (Some a) (refreshToken k) (refreshTokenExpires k)
     (error k).

Definition withRefresh (r : string) (expires : Z) (k : t) : t :=
  mk (userId k) (email k) (name k) (givenName k) (familyName k) (image k)
     (preferences k) (accessToken k) (Some r) (Some expires) (error k).

Definition withError (e : string) (k : t) : t :=
  mk (userId k) (email k) (name k) (givenName k) (familyName k) (image k)
     (preferences k) (accessToken k) (refreshToken k)
     (refreshTokenExpires k) (Some e).
End JWT.

(** What [authorize] resolves to on success (the NextAuth [User]). *)
Module AuthUser.
Record t : Type := mk {
  id : string;
  email : string;
  name : option string;
  givenName : option string;
  familyName : option string;
  image : option string;
  preferences : option string
}.

Definition ofUser (u : User.t) : t :=
  mk (User.id u) (User.email u) (User.name u) (User.givenName u)
     (User.familyName u) (User.image u) (User.preferences u).

(** The fields the [jwt] callback copies on the initial sign in. *)
Definition intoToken (u : t) (k : JWT.t) : JWT.t :=
  JWT.mk (Some (id u)) (Some (email u)) (name u) (givenName u)
         (familyName u) (image u) (preferences u) (JWT.accessToken k)
         (JWT.refreshToken k) (JWT.refreshTokenExpires k) (JWT.error k).
End AuthUser.

(** An HTTP response of the token route. *)
Module Response.
Inductive body : Type :=
  | ErrorBody (error : string)
  | TokenBody (accessToken : string) (id email : string)
              (name image preferences : option string)
  | SuccessBody (success : bool).

Record t : Type := mk {
  status : nat;
  json : body;
  setCookie : list string  (* the Set-Cookie headers appended *)
}.
End Response.

(** ** The platform and the process environment *)

(** Everything the code takes from its runtime. [clock k] is the k-th reading
    of the clock, [entropy k] the k-th random byte, [storeFault k] tells
    whether the k-th store call is lost to an I/O fault. [scrypt] and
    [signHS256] are the key derivation and the signer, taken as black boxes. *)
Record Platform : Type := {
  clock : nat -> Z;
  entropy : nat -> byte;
  storeFault : nat -> bool;
  scrypt : string -> string -> nat -> list byte;
  signHS256 : option string -> Claims.t -> Z -> Z -> Result string;
  decodeURIComponent : string -> Result string;
  encodeURIComponent : string -> string
}.

(** [process.env]; the two TTLs are the integers read by [parseInt], with
    their defaults 900 and 2592000 when the variables are unset. *)
Record ProcessEnv : Type := {
  env_ALLOWED_DOMAINS : option string;
  env_JWT_SECRET : option string;
  env_NODE_ENV : option string;
  ACCESS_TOKEN_TTL : Z;
  REFRESH_TOKEN_TTL : Z
}.

(** The state shared by all requests: the two tables, the console, and how
    much of the clock, the random source and the store has been used. *)
Record World : Type := mkWorld {
  tokens : gmap string RefreshToken.t;
  users : list User.t;
  console : list string;
  ticks : nat;
  drawn : nat;
  ops : nat
}.

Definition withTokens (m : gmap string RefreshToken.t) (w : World) : World :=
  mkWorld m (users w) (console w) (ticks w) (drawn w) (ops w).
Definition tick (w : World) : World :=
  mkWorld (tokens w) (users w) (console w) (S (ticks w)) (drawn w) (ops w).
Definition draw (n : nat) (w : World) : World :=
  mkWorld (tokens w) (users w) (console w) (ticks w) (drawn w + n) (ops w).
Definition countOp (w : World) : World :=
  mkWorld (tokens w) (users w) (console w) (ticks w) (drawn w) (S (ops w)).
Definition logged (line : string) (w : World) : World :=
  mkWorld (tokens w) (users w) (line :: console w) (ticks w) (drawn w) (ops w).

Definition userById (w : World) (id : string) : option User.t :=
  find (fun u => String.eqb (User.id u) id) (users w).
Definition userByEmail (w : World) (email : string) : option User.t :=
  find (fun u => String.eqb (User.email u) email) (users w).

(** ** Effects *)

Inductive Eff : Type -> Type :=
  | DateNow : Eff Z
  | RandomBytes (n : nat) : Eff (list byte)
  | ConsoleError (line : string) : Eff unit
  | SignJWT (secret : option string) (claims : Claims.t) (ttl : Z) : Eff string
  | UserFindUnique (email : string) : Eff (option User.t)
  | TokenFindUnique (token : string) : Eff (option RefreshToken.t)
  | TokenFindUniqueWithUser (token : string)
      : Eff (option (RefreshToken.t * option User.t))
  | TokenUpdate (token : string) (revokedAt : Z) : Eff unit
  | TokenUpdateMany (token : string) (revokedAt : Z) : Eff unit
  | TokenCreate (userId token : string) (expiresAt : Z) : Eff unit.

Section Handlers.
Context (P : Platform).

(** One call to the store: counted, and lost when the platform says so. *)
Definition storeCall {X} (body : World -> Result X * World) (w : World)
  : Result X * World :=
  if storeFault P (ops w) then (Err StoreFault, countOp w)
  else body (countOp w).

(** What each effect does to the world. [update] throws when no row matches
(P2025), [updateMany] does not; [create] throws on a [token] already stored
(P2002) and on a [userId] without user row (P2003). The signer is given the
current clock reading. *)
Definition handle {X} (e : Eff X) (w : World) : Result X * World :=
  match e in Eff X return Result X * World with
  | DateNow => (Ok (clock P (ticks w)), tick w)
  | RandomBytes n => (Ok (map (entropy P) (seq (drawn w) n)), draw n w)
  | ConsoleError line => (Ok tt, logged line w)
  | SignJWT secret claims ttl =>
      (signHS256 P secret claims (clock P (ticks w)) ttl, tick w)
  | UserFindUnique email =>
      storeCall (fun w => (Ok (userByEmail w email), w)) w
  | TokenFindUnique t =>
      storeCall (fun w => (Ok (tokens w !! t), w)) w
  | TokenFindUniqueWithUser t =>
      storeCall (fun w =>
        (Ok ((fun r => (r, userById w (RefreshToken.userId r)))
               <$> tokens w !! t), w)) w
  | TokenUpdate t at_ =>
      storeCall (fun w =>
        match tokens w !! t with
        | Some r =>
            (Ok tt, withTokens (<[t := RefreshToken.withRevokedAt at_ r]> (tokens w)) w)
        | None => (Err (PrismaKnownError "P2025"), w)
        end) w
  | TokenUpdateMany t at_ =>
      storeCall (fun w =>
        match tokens w !! t with
        | Some r =>
            (Ok tt, withTokens (<[t := RefreshToken.withRevokedAt at_ r]> (tokens w)) w)
        | None => (Ok tt, w)
        end) w
  | TokenCreate uid t expires =>
      storeCall (fun w =>
        match tokens w !! t, userById w uid with
        | Some _, _ => (Err (PrismaKnownError "P2002"), w)
        | None, None => (Err (PrismaKnownError "P2003"), w)
        | None, Some _ =>
            (Ok tt, withTokens (<[t := RefreshToken.mk uid t expires None]> (tokens w)) w)
        end) w
  end.
End Handlers.

(** ** Programs *)

(** An asynchronous function: it returns, throws, or awaits an effect and
    goes on with its outcome. *)
Inductive Prog (A : Type) : Type :=
  | Ret (a : A)
  | Throw (e : Exn)
  | Vis {X : Type} (e : Eff X) (k : Result X -> Prog A).
Arguments Ret {A} a.
Arguments Throw {A} e.
Arguments Vis {A X} e k.

Fixpoint bind {A B} (p : Prog A) (f : A -> Prog B) : Prog B :=
  match p with
  | Ret a => f a
  | Throw e => Throw e
  | Vis e k => Vis e (fun r => bind (k r) f)
  end.

(** [try { body } catch (error) { handler }] *)
Fixpoint tryCatch {A} (body : Prog A) (handler : Exn -> Prog A) : Prog A :=
  match body with
  | Ret a => Ret a
  | Throw e => handler e
  | Vis e k => Vis e (fun r => tryCatch (k r) handler)
  end.

(** [await effect]: the outcome, or the rejection rethrown. *)
Definition await {X} (e : Eff X) : Prog X :=
  Vis e (fun r => match r with Ok x => Ret x | Err err => Throw err end).

(** A synchronous call that may throw. *)
Definition lift {A} (r : Result A) : Prog A :=
  match r with Ok a => Ret a | Err e => Throw e end.

#[global] Instance Prog_bind : MBind Prog := fun A B f p => bind p f.
#[global] Instance Prog_ret : MRet Prog := fun A a => Ret a.

Section Semantics.
Context (P : Platform).

(** A call run to completion without any other request in between. *)
Fixpoint run {A} (p : Prog A) (w : World) : Result A * World :=
  match p with
  | Ret a => (Ok a, w)
  | Throw e => (Err e, w)
  | Vis e k => let '(r, w') := handle P e w in run (k r) w'
  end.

(** One await of a pending call. *)
Definition stepThread {A} (p : Prog A) (w : World) : Prog A * World :=
  match p with
  | Vis e k => let '(r, w') := handle P e w in (k r, w')
  | _ => (p, w)
  end.

(** Concurrent calls: the schedule names, effect by effect, which call goes
on next. JavaScript switches between calls only at an [await]; the
schedules here may also switch at a clock reading or a random draw, so every
interleaving of the awaits is among them. *)
Fixpoint sched {A} (schedule : list nat) (pool : list (Prog A)) (w : World)
  : list (Prog A) * World :=
  match schedule with
  | [] => (pool, w)
  | i :: rest =>
      match pool !! i with
      | Some p =>
          let '(p', w') := stepThread p w in
          sched rest (<[i := p']> pool) w'
      | None => sched rest pool w
      end
  end.

(** Calls made one after the other. *)
Fixpoint runAll {A} (calls : list (Prog A)) (w : World)
  : list (Result A) * World :=
  match calls with
  | [] => ([], w)
  | p :: rest =>
      let '(r, w') := run p w in
      let '(rs, w'') := runAll rest w' in
      (r :: rs, w'')
  end.
End Semantics.

(** The outcome of a call, once it has settled. *)
Definition settled {A} (p : Prog A) : option (Result A) :=
  match p with
  | Ret a => Some (Ok a)
  | Throw e => Some (Err e)
  | Vis _ _ => None
  end.

(** ** Requests, credentials and cookie options *)

Record NextRequest : Type := { cookieHeader : option string }.

Record Credentials : Type := {
  cred_email : option string;
  cred_password : option string
}.

Record CookieOptions : Type := {
  opt_httpOnly : option bool;
  opt_secure : option bool;
  opt_sameSite : option string
}.

Definition noOptions : CookieOptions := Build_CookieOptions None None None.

(** The session object built by the [session] callback. *)
Module Session.
Record t : Type := mk {
  id : option string;
  email : option string;
  name : option string;
  givenName : option string;
  familyName : option string;
  image : option string;
  preferences : option string;
  accessToken : option string;
  refreshToken : option string;
  error : option string
}.
End Session.

Definition invalidRefreshToken : Exn := Error "Invalid refresh token".

Section Code.
Context (P : Platform) (E : ProcessEnv).

(** *** lib/auth/utils.ts *)

Definition ALLOWED_DOMAINS : list string :=
  List.filter Js.truthy
    (map Js.trim (Js.split "," (default "" (env_ALLOWED_DOMAINS E)))).

Definition hashPassword (password : string) : Prog string :=
  buf ← await (RandomBytes 16);
  let salt := toHex buf in
  Ret (salt +:+ ":" +:+ toHex (scrypt P password salt 64)).

Definition verifyPassword (password hash : string) : bool :=
  let parts := Js.split ":" hash in
  let salt := default "" (head parts) in
  let key := parts !! 1%nat in
  Js.strictEq key (toHex (scrypt P password salt 64)).

Definition isEmailAllowed (email : string) : bool :=
  if (length ALLOWED_DOMAINS =? 0)%nat then true
  else
    let domain := Js.toLowerCase <$> (Js.split "@" email !! 1%nat) in
    Js.includes ALLOWED_DOMAINS domain.

Definition extractDomain (email : string) : option string :=
  match Js.toLowerCase <$> (Js.split "@" email !! 1%nat) with
  | Some d => if Js.truthy d then Some d else None
  | None => None
  end.

Definition parseCookie (acc : Result (gmap string string)) (cookie : string)
  : Result (gmap string string) :=
  match acc with
  | Err e => Err e
  | Ok cookies =>
      let parts := Js.split "=" (Js.trim cookie) in
      match head parts, parts !! 1%nat with
      | Some name, Some value =>
          if Js.truthy name && Js.truthy value then
            match decodeURIComponent P value with
            | Ok v => Ok (<[name := v]> cookies)
            | Err e => Err e
            end
          else Ok cookies
      | _, _ => Ok cookies
      end
  end.

Definition parseCookies (cookieHeader : option string)
  : Result (gmap string string) :=
  match cookieHeader with
  | None => Ok ∅
  | Some "" => Ok ∅
  | Some header => foldl parseCookie (Ok ∅) (Js.split ";" header)
  end.

Definition setAuthCookie (name value : string) (maxAgeSeconds : Z)
    (options : CookieOptions) : string :=
  let flag (key : string) (v : bool) := if v then key else "" in
  let httpOnly := default true (opt_httpOnly options) in
  let secure :=
    default (bool_decide (env_NODE_ENV E = Some "production"))
            (opt_secure options) in
  let sameSite := default "lax" (opt_sameSite options) in
  let entries :=
    [ flag "httpOnly" httpOnly;
      flag "secure" secure;
      "SameSite=" +:+ sameSite;
      "Max-Age=" +:+ pretty maxAgeSeconds;
      "Path=/" ] in
  name +:+ "=" +:+ encodeURIComponent P value +:+ "; "
    +:+ String.concat "; " (List.filter Js.truthy entries).

Definition clearAuthCookie (name : string) : string :=
  name +:+ "=; HttpOnly; Secure; SameSite=lax; Max-Age=0; Path=/".

(** *** app/api/auth/token/route.ts *)

Definition json (status : nat) (b : Response.body) : Response.t :=
  Response.mk status b [].

Definition appendSetCookie (cookie : string) (r : Response.t) : Response.t :=
  Response.mk (Response.status r) (Response.json r)
              (Response.setCookie r ++ [cookie]).

Definition noRefreshTokenResponse : Response.t :=
  json 401 (Response.ErrorBody "No refresh token provided").

Definition invalidRefreshTokenResponse : Response.t :=
  appendSetCookie (clearAuthCookie "refresh-token")
    (json 401 (Response.ErrorBody "Invalid refresh token")).

Definition refreshFailedResponse : Response.t :=
  appendSetCookie (clearAuthCookie "refresh-token")
    (json 500 (Response.ErrorBody "Token refresh failed")).

Definition refreshedResponse (accessToken newRefreshToken : string)
    (u : User.t) : Response.t :=
  appendSetCookie
    (setAuthCookie "refresh-token" newRefreshToken (REFRESH_TOKEN_TTL E)
                   noOptions)
    (json 200 (Response.TokenBody accessToken (User.id u) (User.email u)
                 (User.name u) (User.image u) (User.preferences u))).

Definition revokedResponse : Response.t :=
  appendSetCookie (clearAuthCookie "refresh-token")
    (json 200 (Response.SuccessBody true)).

Definition revocationFailedResponse : Response.t :=
  json 500 (Response.ErrorBody "Token revocation failed").

(** Lines 28-76 of the route: the presented row [r] has passed the check. *)
Definition rotateAndSign (refreshToken : string)
    (r : RefreshToken.t) (user : option User.t) : Prog Response.t :=
  revokedAt ← await DateNow;
  await (TokenUpdate refreshToken revokedAt);;
  buf ← await (RandomBytes 64);
  let newRefreshToken := toHex buf in
  now ← await DateNow;
  let expiresAt := (now + REFRESH_TOKEN_TTL E * 1000)%Z in
  await (TokenCreate (RefreshToken.userId r) newRefreshToken expiresAt);;
  u ← match user with Some u => Ret u | None => Throw TypeError end;
  accessToken ← await (SignJWT (env_JWT_SECRET E)
                   (Claims.mk (RefreshToken.userId r) (Some (User.email u))
                              "access")
                   (ACCESS_TOKEN_TTL E));
  Ret (refreshedResponse accessToken newRefreshToken u).

(** The [try] block of [POST]. *)
Definition POST_try (request : NextRequest) : Prog Response.t :=
  cookies ← lift (parseCookies (cookieHeader request));
  match cookies !! "refresh-token" with
  | None | Some "" => Ret noRefreshTokenResponse
  | Some refreshToken =>
      refreshTokenRecord ← await (TokenFindUniqueWithUser refreshToken);
      match refreshTokenRecord with
      | None => Ret invalidRefreshTokenResponse
      | Some (r, user) =>
          match RefreshToken.revokedAt r with
          | Some _ => Ret invalidRefreshTokenResponse
          | None =>
              now ← await DateNow;
              if (RefreshToken.expiresAt r <? now)%Z
              then Ret invalidRefreshTokenResponse
              else rotateAndSign refreshToken r user
          end
      end
  end.

Definition POST (request : NextRequest) : Prog Response.t :=
  tryCatch (POST_try request)
    (fun _ =>
       await (ConsoleError "Token refresh error:");;
       Ret refreshFailedResponse).

(** The [try] block of [DELETE]. *)
Definition DELETE_try (request : NextRequest) : Prog Response.t :=
  cookies ← lift (parseCookies (cookieHeader request));
  match cookies !! "refresh-token" with
  | None | Some "" => Ret revokedResponse
  | Some refreshToken =>
      revokedAt ← await DateNow;
      await (TokenUpdateMany refreshToken revokedAt);;
      Ret revokedResponse
  end.

Definition DELETE (request : NextRequest) : Prog Response.t :=
  tryCatch (DELETE_try request)
    (fun _ =>
       await (ConsoleError "Token revocation error:");;
       Ret revocationFailedResponse).

(** *** lib/auth/options.ts *)

Definition authorize (credentials : option Credentials)
  : Prog (option AuthUser.t) :=
  match credentials ≫= cred_email, credentials ≫= cred_password with
  | Some email, Some password =>
      if negb (Js.truthy email) || negb (Js.truthy password) then Ret None
      else if negb (isEmailAllowed email)
      then Throw (Error "Email domain not allowed")
      else
        user ← await (UserFindUnique email);
        match user with
        | None => Ret None
        | Some u =>
            match User.passwordHash u with
            | None | Some "" => Ret None
            | Some passwordHash =>
                if negb (verifyPassword password passwordHash) then Ret None
                else Ret (Some (AuthUser.ofUser u))
            end
        end
  | _, _ => Ret None
  end.

(** [callbacks.signIn]: [provider] is [account?.provider], [email] is
    [user?.email]. *)
Definition signIn (email provider : option string) : bool :=
  match email with
  | Some e =>
      if negb (bool_decide (provider = Some "credentials")) && Js.truthy e
      then isEmailAllowed e
      else true
  | None => true
  end.

(** [userId] is [None] when the caller passes [undefined] through its
    [as string] cast; Prisma then refuses the row. *)
Definition createRefreshToken (userId : option string) : Prog string :=
  buf ← await (RandomBytes 64);
  let tokenValue := toHex buf in
  now ← await DateNow;
  let expiresAt := (now + REFRESH_TOKEN_TTL E * 1000)%Z in
  match userId with
  | Some uid => await (TokenCreate uid tokenValue expiresAt)
  | None => Throw PrismaValidationError
  end;;
  Ret tokenValue.

Definition refreshAccessToken (token : JWT.t) : Prog JWT.t :=
  match JWT.refreshToken token with
  | None | Some "" => Throw (Error "No refresh token")
  | Some refreshToken =>
      refreshTokenRecord ← await (TokenFindUnique refreshToken);
      match refreshTokenRecord with
      | None => Throw invalidRefreshToken
      | Some r =>
          match RefreshToken.revokedAt r with
          | Some _ => Throw invalidRefreshToken
          | None =>
              now ← await DateNow;
              if (RefreshToken.expiresAt r <? now)%Z
              then Throw invalidRefreshToken
              else
                revokedAt ← await DateNow;
                await (TokenUpdate refreshToken revokedAt);;
                newRefreshToken ← createRefreshToken (JWT.userId token);
                now' ← await DateNow;
                Ret (JWT.withRefresh newRefreshToken
                       (now' + REFRESH_TOKEN_TTL E * 1000)%Z token)
          end
      end
  end.

Definition revokeRefreshToken (tokenValue : string) : Prog unit :=
  revokedAt ← await DateNow;
  await (TokenUpdateMany tokenValue revokedAt).

(** The signing block of the [jwt] callback (lines 104-124). *)
Definition signAccessToken (token : JWT.t) : Prog JWT.t :=
  match JWT.userId token with
  | None | Some "" => Ret token
  | Some userId =>
      tryCatch
        (accessToken ← await (SignJWT (env_JWT_SECRET E)
                          (Claims.mk userId (JWT.email token) "access")
                          (ACCESS_TOKEN_TTL E));
         Ret (JWT.withAccessToken accessToken token))
        (fun _ => await (ConsoleError "Error signing JWT:");; Ret token)
  end.

(** The session-update block of the [jwt] callback (lines 99-102). *)
Definition sessionUpdate (token : JWT.t) (trigger : option string)
    (session : option JWT.t) : JWT.t :=
  match trigger, session with
  | Some t, Some s => if String.eqb t "update" then JWT.assign token s else token
  | _, _ => token
  end.

(** The refresh block of the [jwt] callback (lines 126-137). *)
Definition refreshIfDue (token : JWT.t) : Prog JWT.t :=
  match JWT.refreshToken token, JWT.refreshTokenExpires token with
  | Some (String _ _), Some expires =>
      if (expires =? 0)%Z then Ret token
      else
        now ← await DateNow;
        if (expires <? now)%Z then
          tryCatch (refreshAccessToken token)
            (fun _ =>
               await (ConsoleError "Error refreshing access token:");;
               Ret (JWT.withError "RefreshAccessTokenError" token))
        else Ret token
  | _, _ => Ret token
  end.

(** [callbacks.jwt]: [account] is only tested for presence. *)
Definition jwt (token : JWT.t) (user : option AuthUser.t)
    (account : option string) (trigger : option string)
    (session : option JWT.t) : Prog JWT.t :=
  token ← match user, account with
          | Some u, Some _ =>
              let token := AuthUser.intoToken u token in
              refreshTokenValue ← createRefreshToken (JWT.userId token);
              now ← await DateNow;
              Ret (JWT.withRefresh refreshTokenValue
                     (now + REFRESH_TOKEN_TTL E * 1000)%Z token)
          | _, _ => Ret token
          end;
  let token := sessionUpdate token trigger session in
  token ← signAccessToken token;
  refreshIfDue token.

(** [callbacks.session]: the fields copied from the token. *)
Definition session (token : JWT.t) : Session.t :=
  Session.mk (JWT.userId token) (JWT.email token) (JWT.name token)
    (JWT.givenName token) (JWT.familyName token) (JWT.image token)
    (JWT.preferences token) (JWT.accessToken token) (JWT.refreshToken token)
    (JWT.error token).

(** [events.signOut] *)
Definition signOut (token : option JWT.t) : Prog unit :=
  match token ≫= JWT.refreshToken with
  | Some (String c rest) => revokeRefreshToken (String c rest)
  | _ => Ret tt
  end.
End Code.

(** ** A concrete platform and store for the worked examples *)

Definition percentByte (c : ascii) : string :=
  let n := N_of_ascii c in
  let upper (d : N) : ascii :=
    if (d <? 10)%N then ascii_of_N (48 + d) else ascii_of_N (55 + d) in
  String "%" (String (upper (n / 16)%N) (String (upper (n mod 16)%N) "")).

Definition isUnreserved (c : ascii) : bool :=
  let n := nat_of_ascii c in
  ((48 <=? n)%nat && (n <=? 57)%nat) || ((65 <=? n)%nat && (n <=? 90)%nat)
  || ((97 <=? n)%nat && (n <=? 122)%nat)
  || existsb (Ascii.eqb c) (list_ascii_of_string "-_.!~*'()").

(** [encodeURIComponent] on ASCII text. *)
Fixpoint percentEncode (s : string) : string :=
  match s with
  | "" => ""
  | String c rest =>
      (if isUnreserved c then String c "" else percentByte c)
        +:+ percentEncode rest
  end.

(** [decodeURIComponent] on escapes of ASCII characters; any other escape is
    refused. *)
Fixpoint percentDecode (s : string) : Result string :=
  match s with
  | "" => Ok ""
  | String c rest =>
      if Ascii.eqb c "%" then
        match rest with
        | String hi (String lo rest') =>
            match hexValue (Js.lowerChar hi), hexValue (Js.lowerChar lo) with
            | Some h, Some l =>
                if (16 * h + l <? 128)%N then
                  match percentDecode rest' with
                  | Ok r => Ok (String (ascii_of_N (16 * h + l)) r)
                  | Err e => Err e
                  end
                else Err URIError
            | _, _ => Err URIError
            end
        | _ => Err URIError
        end
      else
        match percentDecode rest with
        | Ok r => Ok (String c r)
        | Err e => Err e
        end
  end.

Definition bytesOf (s : string) : list byte :=
  map byte_of_ascii (list_ascii_of_string s).

(** A platform whose clock advances one millisecond per reading, whose store
    never faults, whose random bytes count upwards, whose key derivation
    returns the requested number of bytes (password and salt, cut or padded
    with zeros) and whose signer refuses a missing or empty secret. *)
Definition samplePlatform : Platform := {|
  clock := fun k => (1700000000000 + Z.of_nat k)%Z;
  entropy := fun k => default x00 (Byte.of_nat (k mod 256));
  storeFault := fun _ => false;
  scrypt := fun password salt keylen =>
    take keylen (bytesOf password ++ bytesOf salt ++ repeat x00 keylen)%list;
  signHS256 := fun secret claims now ttl =>
    match secret with
    | Some (String _ _) =>
        Ok ("jwt." +:+ Claims.userId claims +:+ "." +:+ pretty (now / 1000 + ttl)%Z)
    | _ => Err JOSEError
    end;
  decodeURIComponent := percentDecode;
  encodeURIComponent := percentEncode
|}.

Definition sampleEnv : ProcessEnv := {|
  env_ALLOWED_DOMAINS := Some "example.com";
  env_JWT_SECRET := Some "signing-secret";
  env_NODE_ENV := Some "production";
  ACCESS_TOKEN_TTL := 900;
  REFRESH_TOKEN_TTL := 2592000
|}.

(** The same process with another whitelist. *)
Definition withWhitelist (domains : string) (E : ProcessEnv) : ProcessEnv := {|
  env_ALLOWED_DOMAINS := Some domains;
  env_JWT_SECRET := env_JWT_SECRET E;
  env_NODE_ENV := env_NODE_ENV E;
  ACCESS_TOKEN_TTL := ACCESS_TOKEN_TTL E;
  REFRESH_TOKEN_TTL := REFRESH_TOKEN_TTL E
|}.

(** The same process with [JWT_SECRET] unset. *)
Definition withoutSecret (E : ProcessEnv) : ProcessEnv := {|
  env_ALLOWED_DOMAINS := env_ALLOWED_DOMAINS E;
  env_JWT_SECRET := None;
  env_NODE_ENV := env_NODE_ENV E;
  ACCESS_TOKEN_TTL := ACCESS_TOKEN_TTL E;
  REFRESH_TOKEN_TTL := REFRESH_TOKEN_TTL E
|}.

Definition alice : User.t :=
  User.mk "u1" "alice@example.com" (Some "Alice") None None None None
          (Some ("00ff:" +:+ toHex (scrypt samplePlatform "pw" "00ff" 64))).

Definition bob : User.t :=
  User.mk "u2" "bob@example.com" (Some "Bob") None None None None None.

(** Alice's refresh token, valid for one more second of [samplePlatform]. *)
Definition aliceToken : RefreshToken.t :=
  RefreshToken.mk "u1" "alice-refresh-token" 1700000001000 None.

Definition sampleWorld : World := {|
  tokens := {[ "alice-refresh-token" := aliceToken ]};
  users := [alice; bob];
  console := [];
  ticks := 0;
  drawn := 0;
  ops := 0
|}.

(** The same store with one row replaced or added. *)
Definition withRow (r : RefreshToken.t) (w : World) : World :=
  withTokens (<[RefreshToken.token r := r]> (tokens w)) w.

Definition aliceRequest : NextRequest :=
  {| cookieHeader := Some "theme=dark; refresh-token=alice-refresh-token" |}.

Definition aliceJWT : JWT.t :=
  JWT.mk (Some "u1") (Some "alice@example.com") (Some "Alice") None None None
         None None (Some "alice-refresh-token") (Some 1700000001000%Z) None.

(** ** Vocabulary of the statements *)

Definition isNot (sep : ascii) (c : ascii) : bool := negb (Ascii.eqb c sep).

(** Two domains that differ at most in letter case. *)
Definition sameDomain (a b : string) : Prop :=
  Js.toLowerCase a = Js.toLowerCase b.

(** The [@]-separated piece of an address that [isEmailAllowed] looks at. *)
Definition domainOf (email : string) : option string :=
  Js.split "@" email !! 1%nat.

(** The store answers every call. *)
Definition healthy (P : Platform) : Prop := forall k, storeFault P k = false.

(** The clock never runs backwards. *)
Definition monotoneClock (P : Platform) : Prop :=
  forall i j, i <= j -> (clock P i <= clock P j)%Z.

(** The value the next [randomBytes(64).toString("hex")] yields. *)
Definition nextToken (P : Platform) (w : World) : string :=
  toHex (map (entropy P) (seq (drawn w) 64)).

(** A row passes the check of the rotation at time [now]: it is not revoked
    and [expiresAt < now] is false. *)
Definition usable (now : Z) (r : RefreshToken.t) : Prop :=
  RefreshToken.revokedAt r = None /\ (now <= RefreshToken.expiresAt r)%Z.

(** The refresh token a request presents: the [refresh-token] cookie, when the
    header parses and the cookie is not empty. *)
Definition presented (P : Platform) (request : NextRequest)
  : Result (option string) :=
  match parseCookies P (cookieHeader request) with
  | Ok cookies =>
      Ok match cookies !! "refresh-token" with
         | Some (String c rest) => Some (String c rest)
         | _ => None
         end
  | Err e => Err e
  end.

(** The world a successful rotation of row [r], presented as [presented],
    leaves behind: the row is revoked at the second clock reading, a row for
    [owner] is added under the next random value with the third reading plus
    the TTL as expiry, and nothing else differs but the counters. *)
Definition afterRotation (P : Platform) (E : ProcessEnv) (presented : string)
    (r : RefreshToken.t) (owner : string) (w : World) : World := {|
  tokens :=
    <[nextToken P w :=
        RefreshToken.mk owner (nextToken P w)
          (clock P (2 + ticks w) + REFRESH_TOKEN_TTL E * 1000)%Z None]>
      (<[presented := RefreshToken.withRevokedAt (clock P (1 + ticks w)) r]>
         (tokens w));
  users := users w;
  console := console w;
  ticks := 4 + ticks w;
  drawn := drawn w + 64;
  ops := 3 + ops w
|}.

(** The [Set-Cookie] header that clears the refresh-token cookie is present. *)
Definition cookieCleared (r : Response.t) : Prop :=
  clearAuthCookie "refresh-token" ∈ Response.setCookie r.

(** [sampleWorld] at the very millisecond Alice's token expires. *)
Definition atExpiry : World := {|
  tokens := tokens sampleWorld;
  users := users sampleWorld;
  console := [];
  ticks := 1000;
  drawn := 0;
  ops := 0
|}.

(** What a rotation may change between [w] and [w']: the presented row gets a
    [revokedAt] and keeps its other fields, one row appears under [newValue],
    every other row and every user stays. *)
Definition rotationFrame (presentedValue newValue : string) (w w' : World)
  : Prop :=
  (exists r r',
     tokens w !! presentedValue = Some r
     /\ tokens w' !! presentedValue = Some r'
     /\ RefreshToken.userId r' = RefreshToken.userId r
     /\ RefreshToken.token r' = RefreshToken.token r
     /\ RefreshToken.expiresAt r' = RefreshToken.expiresAt r
     /\ RefreshToken.revokedAt r = None
     /\ is_Some (RefreshToken.revokedAt r'))
  /\ tokens w !! newValue = None
  /\ is_Some (tokens w' !! newValue)
  /\ (forall k, k <> presentedValue -> k <> newValue ->
                tokens w' !! k = tokens w !! k)
  /\ size (tokens w') = S (size (tokens w))
  /\ users w' = users w.

(** A JWT that carries Alice's refresh token next to Bob's user id. *)
Definition mismatchedJWT : JWT.t :=
  JWT.mk (Some "u2") (Some "alice@example.com") (Some "Alice") None None None
         None None (Some "alice-refresh-token") (Some 1700000001000%Z) None.

(** The session update a client sends to obtain [mismatchedJWT] from
    [aliceJWT] and have the refresh branch of [jwt] taken at once. *)
Definition forgedUpdate : JWT.t :=
  JWT.mk (Some "u2") None None None None None None None None (Some 1%Z) None.

(** A call has settled with a 200 response. *)
Definition succeeded (p : Prog Response.t) : bool :=
  match settled p with
  | Some (Ok r) => (Response.status r =? 200)%nat
  | _ => false
  end.

(** Two requests presenting Alice's token, each switched out only while it
    awaits the store or the signer: both look the token up, then each in turn
    checks and revokes it, then each creates its successor, then each signs. *)
Definition racingSchedule : list nat :=
  [0; 1; 0; 0; 0; 1; 1; 1; 0; 0; 0; 1; 1; 1; 0; 1].

(** [sampleWorld] after Alice's token was revoked, one second earlier. *)
Definition revokedWorld : World :=
  withRow (RefreshToken.mk "u1" "alice-refresh-token" 1700000001000
             (Some 1699999999000%Z)) sampleWorld.

(** What a revocation of [tokenValue] changes between [w] and [w']: the row,
    if there is one, gets the current clock reading as [revokedAt], whatever
    it held before; nothing else changes. *)
Definition revokeEffect (P : Platform) (tokenValue : string) (w w' : World)
  : Prop :=
  users w' = users w
  /\ tokens w' !! tokenValue
     = RefreshToken.withRevokedAt (clock P (ticks w)) <$> tokens w !! tokenValue
  /\ (forall k, k <> tokenValue -> tokens w' !! k = tokens w !! k).

(** A request without any cookie. *)
Definition bareRequest : NextRequest := {| cookieHeader := None |}.

(** The credentials form filled in with [email] and [password]. *)
Definition credentialsOf (email password : string) : option Credentials :=
  Some {| cred_email := Some email; cred_password := Some password |}.

(** The signer refuses whatever it is given, as with a missing secret. *)
Definition signerFails (P : Platform) (E : ProcessEnv) : Prop :=
  forall claims now ttl,
    isOk (signHS256 P (env_JWT_SECRET E) claims now ttl) = false.

(** The sign-in block of the [jwt] callback (lines 84-97), which the rest
    of the callback follows. *)
Definition signInBlock (E : ProcessEnv) (token : JWT.t)
    (user : option AuthUser.t) (account : option string) : Prog JWT.t :=
  match user, account with
  | Some u, Some _ =>
      let token := AuthUser.intoToken u token in
      refreshTokenValue ← createRefreshToken E (JWT.userId token);
      now ← await DateNow;
      Ret (JWT.withRefresh refreshTokenValue
             (now + REFRESH_TOKEN_TTL E * 1000)%Z token)
  | _, _ => Ret token
  end.

(** The same platform where signing always throws: the import of [jose] or
    the [sign] call rejects, whatever the secret. *)
Definition withoutSigner (P : Platform) : Platform := {|
  clock := clock P;
  entropy := entropy P;
  storeFault := storeFault P;
  scrypt := scrypt P;
  signHS256 := fun _ _ _ _ => Err JOSEError;
  decodeURIComponent := decodeURIComponent P;
  encodeURIComponent := encodeURIComponent P
|}.

(** ** Vocabulary of the further properties *)

(** The salt the next [hashPassword] draws. *)
Definition saltOf (P : Platform) (w : World) : string :=
  toHex (map (entropy P) (seq (drawn w) 16)).

Definition notWhite (c : ascii) : bool := negb (Js.isWhite c).

(** The visible ASCII characters, [!] to [~]: none of them is trimmed. *)
Definition printable (c : ascii) : bool :=
  let n := nat_of_ascii c in (33 <=? n)%nat && (n <=? 126)%nat.

(** A character of a cookie name or value that [parseCookies] reads back as
    it is: visible ASCII, no [;], no [=]. *)
Definition cookieChar (c : ascii) : bool :=
  printable c && isNot ";" c && isNot "=" c.

(** A name that an assignment [cookies[name] = value] stores as a property
    of the object itself. *)
Definition ownKey (name : string) : Prop := name <> "__proto__".

Definition cookieText (s : string) : Prop :=
  s <> "" /\ allChars cookieChar s = true.

(** A [Cookie] header as browsers write it: [name=value] pairs joined by
    a semicolon and a space. *)
Definition cookiePair (c : string * string) : string := c.1 +:+ "=" +:+ c.2.

Definition cookieHeaderOf (cookies : list (string * string)) : string :=
  String.concat "; " (map cookiePair cookies).

(** A whitelist entry as it is meant to be configured: not empty, of
    visible ASCII characters, without comma. *)
Definition domainChar (c : ascii) : bool := printable c && isNot "," c.

Definition domainText (s : string) : Prop :=
  s <> "" /\ allChars domainChar s = true.

(** A user whose password hash [hashPassword] wrote, with the salt drawn in
    [sampleWorld]. *)
Definition carol : User.t :=
  User.mk "u3" "carol@example.com" (Some "Carol") None None None None
    (Some (saltOf samplePlatform sampleWorld +:+ ":"
           +:+ toHex (scrypt samplePlatform "password123"
                        (saltOf samplePlatform sampleWorld) 64))).

Definition carolWorld : World := {|
  tokens := ∅;
  users := [carol];
  console := [];
  ticks := 0;
  drawn := 16;
  ops := 0
|}.

(** A request whose cookie header carries a broken percent escape. *)
Definition brokenRequest : NextRequest :=
  {| cookieHeader := Some "refresh-token=alice-refresh-token; theme=%" |}.

Definition aliceCookies : list (string * string) :=
  [("theme", "dark"); ("refresh-token", "alice-refresh-token");
   ("theme", "light")].

(** A JWT that carries alice's refresh token but no [userId]. *)
Definition anonymousJWT : JWT.t :=
  JWT.mk None (Some "alice@example.com") (Some "Alice") None None None
         None None (Some "alice-refresh-token") (Some 1700000001000%Z) None.

(** * Properties *)

(** ** Running programs *)

Section RunFacts.
Context (P : Platform).

Lemma run_bind {A B} (p : Prog A) (f : A -> Prog B) (w : World) :
  run P (p ≫= f) w =
  match run P p w with
  | (Ok a, w') => run P (f a) w'
  | (Err e, w') => (Err e, w')
  end.
Proof.
  unfold mbind, Prog_bind. revert w.
  induction p as [a | e | X e k IH]; intros w; simpl; try reflexivity.
  destruct (handle P e w) as [r w']. apply IH.
Qed.

Lemma run_tryCatch {A} (p : Prog A) (h : Exn -> Prog A) (w : World) :
  run P (tryCatch p h) w =
  match run P p w with
  | (Ok a, w') => (Ok a, w')
  | (Err e, w') => run P (h e) w'
  end.
Proof.
  revert w.
  induction p as [a | e | X e k IH]; intros w; simpl; try reflexivity.
  destruct (handle P e w) as [r w']. apply IH.
Qed.

Lemma run_await {X} (e : Eff X) (w : World) :
  run P (await e) w = handle P e w.
Proof.
  unfold await. simpl. destruct (handle P e w) as [[x | err] w']; reflexivity.
Qed.

Lemma run_lift {A} (r : Result A) (w : World) : run P (lift r) w = (r, w).
Proof. destruct r; reflexivity. Qed.

(** A call that is stepped until it settles has run to completion. *)
Lemma run_stepThread {A} (p : Prog A) (w : World) :
  run P p w = (let '(p', w') := stepThread P p w in run P p' w').
Proof.
  destruct p as [a | e | X e k]; simpl; try reflexivity.
  destruct (handle P e w) as [r w']. reflexivity.
Qed.

(** A call scheduled on its own until it settles has run to completion,
whatever other calls wait in the pool. *)
Lemma sched_thread {A} (p : Prog A) (before after : list (Prog A))
    (w : World) :
  exists n p',
    sched P (replicate n (length before)) (before ++ p :: after)%list w
    = ((before ++ p' :: after)%list, (run P p w).2)
    /\ settled p' = Some (run P p w).1.
Proof.
  revert w. induction p as [a | e | X e k IH]; intros w.
  - by exists 0, (Ret a).
  - by exists 0, (Throw e).
  - destruct (handle P e w) as [r w1] eqn:Hw.
    destruct (IH r w1) as (n & p' & Hsched & Hsettled).
    exists (S n), p'. cbn [replicate sched run].
    rewrite list_lookup_middle by done. cbn [stepThread]. rewrite Hw.
    replace (<[length before := k r]> (before ++ Vis e k :: after)%list)
      with (before ++ k r :: after)%list; [done |].
    by rewrite insert_app_r_alt, Nat.sub_diag.
Qed.

Lemma sched_app {A} (s1 s2 : list nat) (pool : list (Prog A)) (w : World) :
  sched P (s1 ++ s2)%list pool w
  = (let '(pool', w') := sched P s1 pool w in sched P s2 pool' w').
Proof.
  revert pool w. induction s1 as [| i s1 IH]; intros pool w; [done |].
  cbn [app sched]. destruct (pool !! i) as [p |]; [| apply IH].
  destruct (stepThread P p w) as [p' w']. apply IH.
Qed.

(** Serving the calls one after the other is one of the schedules. *)
Lemma runAll_is_a_schedule {A} (calls served : list (Prog A)) (w : World) :
  exists schedule calls',
    sched P schedule (served ++ calls)%list w
    = ((served ++ calls')%list, (runAll P calls w).2)
    /\ settled <$> calls' = Some <$> (runAll P calls w).1.
Proof.
  revert served w. induction calls as [| p calls IH]; intros served w.
  - by exists [], [].
  - destruct (sched_thread p served calls w) as (n & p' & Hp & Hsettled).
    cbn [runAll].
    destruct (run P p w) as [r w1]. cbn [fst snd] in *.
    destruct (IH (served ++ [p'])%list w1) as (schedule & calls' & Hrest & Hall).
    destruct (runAll P calls w1) as [rs w2]. cbn [fst snd] in *.
    exists (replicate n (length served) ++ schedule)%list, (p' :: calls').
    rewrite sched_app, Hp. rewrite <- !app_assoc in Hrest. cbn [app] in Hrest.
    split; [done |]. cbn [fmap list_fmap]. by rewrite Hsettled, Hall.
Qed.

(** A handler that returns makes the whole [try] return. *)
Lemma run_tryCatch_total {A} (p : Prog A) (h : Exn -> Prog A) (w : World) :
  (forall e w1, exists a w2, run P (h e) w1 = (Ok a, w2)) ->
  exists a w', run P (tryCatch p h) w = (Ok a, w').
Proof.
  intros Hh. rewrite run_tryCatch.
  destruct (run P p w) as [[a | e] w']; eauto.
Qed.
End RunFacts.

(** ** Hexadecimal encoding *)

Lemma hexValue_hexDigit (n : N) : (n < 16)%N -> hexValue (hexDigit n) = Some n.
Proof.
  intros Hn. destruct n as [| p]; [reflexivity |].
  do 4 (destruct p as [p | p |]; try reflexivity); lia.
Qed.

Lemma to_N_lt_256 (b : byte) : (Byte.to_N b < 256)%N.
Proof.
  pose proof (Byte.to_N_bounded b). lia.
Qed.

Lemma fromHex_toHex (buf : list byte) : fromHex (toHex buf) = Some buf.
Proof.
  induction buf as [| b rest IH]; [reflexivity |].
  pose proof (to_N_lt_256 b) as Hb.
  cbn [toHex fromHex].
  rewrite !hexValue_hexDigit, IH.
  - replace (16 * (Byte.to_N b / 16) + Byte.to_N b mod 16)%N
      with (Byte.to_N b) by (rewrite <- N.div_mod'; reflexivity).
    rewrite Byte.of_to_N. reflexivity.
  - apply N.mod_lt. lia.
  - apply N.Div0.div_lt_upper_bound. lia.
Qed.

Lemma toHex_inj (a b : list byte) : toHex a = toHex b -> a = b.
Proof.
  intros H. apply (f_equal fromHex) in H. rewrite !fromHex_toHex in H.
  congruence.
Qed.

Lemma toHex_length (buf : list byte) :
  String.length (toHex buf) = 2 * length buf.
Proof. induction buf as [| b rest IH]; simpl; [reflexivity | lia]. Qed.

Lemma isHexDigit_hexDigit (n : N) : (n < 16)%N -> isHexDigit (hexDigit n) = true.
Proof. intros Hn. unfold isHexDigit. rewrite hexValue_hexDigit; done. Qed.

Lemma toHex_hex (buf : list byte) : allChars isHexDigit (toHex buf) = true.
Proof.
  induction buf as [| b rest IH]; [reflexivity |].
  pose proof (to_N_lt_256 b) as Hb.
  cbn [toHex allChars]. rewrite !isHexDigit_hexDigit, IH; [reflexivity | |].
  - apply N.mod_lt. lia.
  - apply N.Div0.div_lt_upper_bound. lia.
Qed.

(** ** Splitting *)

Lemma split_cons (sep : ascii) (s : string) :
  exists piece pieces, Js.split sep s = piece :: pieces.
Proof.
  destruct s as [| c rest]; simpl; [eauto |].
  destruct (Ascii.eqb c sep); [eauto |].
  destruct (Js.split sep rest); eauto.
Qed.

Lemma split_without (sep : ascii) (s : string) :
  allChars (isNot sep) s = true -> Js.split sep s = [s].
Proof.
  induction s as [| c rest IH]; simpl; [reflexivity |].
  unfold isNot at 1. intros [Hc Hrest]%andb_true_iff.
  apply negb_true_iff in Hc. rewrite Hc, (IH Hrest). reflexivity.
Qed.

Lemma split_app (sep : ascii) (a b : string) :
  allChars (isNot sep) a = true ->
  Js.split sep (a +:+ String sep b) = a :: Js.split sep b.
Proof.
  induction a as [| c rest IH]; simpl.
  - intros _. rewrite Ascii.eqb_refl. reflexivity.
  - unfold isNot at 1. intros [Hc Hrest]%andb_true_iff.
    apply negb_true_iff in Hc. rewrite Hc, (IH Hrest). reflexivity.
Qed.

Lemma allChars_impl (p q : ascii -> bool) (s : string) :
  (forall c, p c = true -> q c = true) ->
  allChars p s = true -> allChars q s = true.
Proof.
  intros Hpq. induction s as [| c rest IH]; simpl; [done |].
  intros [Hc Hrest]%andb_true_iff. rewrite (Hpq _ Hc), (IH Hrest). done.
Qed.

Lemma hexDigit_not_colon (c : ascii) :
  isHexDigit c = true -> isNot ":" c = true.
Proof.
  unfold isNot. destruct (Ascii.eqb_spec c ":") as [-> | Hne]; [| done].
  vm_compute. congruence.
Qed.

Lemma toHex_no_colon (buf : list byte) :
  allChars (isNot ":") (toHex buf) = true.
Proof.
  apply allChars_impl with (p := isHexDigit);
    [apply hexDigit_not_colon | apply toHex_hex].
Qed.

(** ** Password hashes *)

Section Passwords.
Context (P : Platform).

(** Against a stored value of two pieces, [salt:key], the candidate is
    accepted exactly when [key] is what the candidate derives with [salt]. *)
Lemma verifyPassword_two_pieces (candidate salt key : string) :
  allChars (isNot ":") salt = true ->
  allChars (isNot ":") key = true ->
  verifyPassword P candidate (salt +:+ ":" +:+ key) = true
  <-> key = toHex (scrypt P candidate salt 64).
Proof.
  intros Hsalt Hkey. unfold verifyPassword.
  change (salt +:+ ":" +:+ key) with (salt +:+ String ":" key).
  rewrite (split_app _ _ _ Hsalt), (split_without _ _ Hkey).
  simpl. apply String.eqb_eq.
Qed.

(** Pieces after the second one are not looked at. *)
Lemma verifyPassword_tail (candidate salt key rest : string) :
  allChars (isNot ":") salt = true ->
  allChars (isNot ":") key = true ->
  verifyPassword P candidate (salt +:+ ":" +:+ key +:+ ":" +:+ rest)
  = verifyPassword P candidate (salt +:+ ":" +:+ key).
Proof.
  intros Hsalt Hkey. unfold verifyPassword.
  change (salt +:+ ":" +:+ key +:+ ":" +:+ rest)
    with (salt +:+ String ":" (key +:+ String ":" rest)).
  change (salt +:+ ":" +:+ key) with (salt +:+ String ":" key).
  rewrite !(split_app _ _ _ Hsalt), (split_app _ _ _ Hkey),
    (split_without _ _ Hkey).
  reflexivity.
Qed.

(** C7, as the code has it. [hashPassword] returns [salt:derivedKeyHex] for
    a salt that is the next 16 random bytes written as 32 hexadecimal
    characters, a value of exactly two pieces. For every salt without
    colon: [verifyPassword] accepts the password against its own hash; it
    accepts another candidate against that hash exactly when the candidate
    derives the same 64-byte key with that salt; a stored value of two
    pieces [salt:key] is accepted exactly when it is the hash of the
    candidate with that salt; and whatever follows a second colon is
    ignored, so that [salt:key:rest] is accepted whenever [salt:key] is. *)
Theorem verifyPassword_hashPassword (password candidate : string)
    (w : World) :
  (exists salt w',
      run P (hashPassword P password) w
      = (Ok (salt +:+ ":" +:+ toHex (scrypt P password salt 64)), w')
      /\ fromHex salt = Some (map (entropy P) (seq (drawn w) 16))
      /\ String.length salt = 32
      /\ allChars isHexDigit salt = true
      /\ allChars (isNot ":") salt = true
      /\ Js.split ":" (salt +:+ ":" +:+ toHex (scrypt P password salt 64))
         = [salt; toHex (scrypt P password salt 64)])
  /\ forall salt,
       allChars (isNot ":") salt = true ->
       let hashOf p := salt +:+ ":" +:+ toHex (scrypt P p salt 64) in
       verifyPassword P password (hashOf password) = true
       /\ (verifyPassword P candidate (hashOf password) = true
           <-> scrypt P candidate salt 64 = scrypt P password salt 64)
       /\ forall key,
            allChars (isNot ":") key = true ->
            (verifyPassword P candidate (salt +:+ ":" +:+ key) = true
             <-> salt +:+ ":" +:+ key = hashOf candidate)
            /\ forall rest,
                 verifyPassword P candidate
                   (salt +:+ ":" +:+ key +:+ ":" +:+ rest)
                 = verifyPassword P candidate (salt +:+ ":" +:+ key).
Proof.
  split.
  - exists (toHex (map (entropy P) (seq (drawn w) 16))), (draw 16 w).
    split; [reflexivity |]. split; [apply fromHex_toHex |].
    split; [| split; [apply toHex_hex | split; [apply toHex_no_colon |]]].
    + rewrite toHex_length, length_map, length_seq. reflexivity.
    + match goal with
      | |- Js.split ":" (?a +:+ ":" +:+ ?b) = _ =>
          change (a +:+ ":" +:+ b) with (a +:+ String ":" b)
      end.
      by rewrite split_app, split_without by apply toHex_no_colon.
  - intros salt Hsalt hashOf. subst hashOf. cbv beta. split; [| split].
    + by apply verifyPassword_two_pieces; [| apply toHex_no_colon |].
    + rewrite verifyPassword_two_pieces by (done || apply toHex_no_colon).
      split; [intros Heq; symmetry; by apply toHex_inj | by intros ->].
    + intros key Hkey. split.
      * rewrite verifyPassword_two_pieces by done.
        split; [by intros -> |].
        intros Heq. apply (inj (String.app _)) in Heq. by injection Heq.
      * intros rest. by apply verifyPassword_tail.
Qed.
End Passwords.

Lemma verifyPassword_hashPassword_witness :
  let hashOf p := "00ff" +:+ ":" +:+ toHex (scrypt samplePlatform p "00ff" 64) in
  verifyPassword samplePlatform "password123" (hashOf "password123") = true
  /\ (verifyPassword samplePlatform "password124" (hashOf "password123") = true
      <-> scrypt samplePlatform "password124" "00ff" 64
          = scrypt samplePlatform "password123" "00ff" 64)
  /\ forall key,
       allChars (isNot ":") key = true ->
       (verifyPassword samplePlatform "password124" ("00ff" +:+ ":" +:+ key)
        = true
        <-> "00ff" +:+ ":" +:+ key = hashOf "password124")
       /\ forall rest,
            verifyPassword samplePlatform "password124"
              ("00ff" +:+ ":" +:+ key +:+ ":" +:+ rest)
            = verifyPassword samplePlatform "password124"
                ("00ff" +:+ ":" +:+ key).
Proof.
  exact (proj2 (verifyPassword_hashPassword samplePlatform "password123"
                  "password124" sampleWorld) "00ff" eq_refl).
Defined.

(** C7, as stated, fails in the direction from acceptance to hash: the
    hash of "pw" with salt "00ff", followed by a third piece, is accepted
    for "pw", and it is neither that hash nor a value [hashPassword]
    returns for any password, in any state. *)
Lemma verifyPassword_accepts_longer_value :
  let hash := "00ff:" +:+ toHex (scrypt samplePlatform "pw" "00ff" 64) in
  let stored := hash +:+ ":junk" in
  verifyPassword samplePlatform "pw" stored = true
  /\ stored <> hash
  /\ forall password w,
       (run samplePlatform (hashPassword samplePlatform password) w).1
       <> Ok stored.
Proof.
  cbv zeta. split; [vm_compute; reflexivity |].
  split; [vm_compute; discriminate |].
  intros password w. unfold hashPassword.
  rewrite run_bind, run_await. cbn [handle run fst].
  intros Heq. discriminate Heq.
Qed.

(** ** The whitelist *)

Lemma lowerChar_idem (c : ascii) : Js.lowerChar (Js.lowerChar c) = Js.lowerChar c.
Proof. destruct c as [[] [] [] [] [] [] [] []]; reflexivity. Qed.

Lemma toLowerCase_idem (s : string) :
  Js.toLowerCase (Js.toLowerCase s) = Js.toLowerCase s.
Proof.
  induction s as [| c s IH]; simpl; [done |]. by rewrite lowerChar_idem, IH.
Qed.

Lemma includes_spec (xs : list string) (x : string) :
  Js.includes xs (Some x) = true <-> x ∈ xs.
Proof.
  simpl. rewrite existsb_exists. split.
  - intros (y & Hy & Heq). apply String.eqb_eq in Heq. subst.
    by apply list_elem_of_In.
  - intros Hx. exists x. split; [by apply list_elem_of_In |].
    apply String.eqb_refl.
Qed.

Section Whitelist.
Context (E : ProcessEnv).

(** What the code decides: the whitelist is empty, or the lower-cased second
    [@]-piece of the address is, letter for letter, one of its entries. *)
Lemma isEmailAllowed_spec (email : string) :
  isEmailAllowed E email = true <->
  ALLOWED_DOMAINS E = []
  \/ exists d, domainOf email = Some d /\ Js.toLowerCase d ∈ ALLOWED_DOMAINS E.
Proof.
  unfold isEmailAllowed, domainOf.
  destruct (ALLOWED_DOMAINS E) as [| entry entries] eqn:Hlist.
  - simpl. split; [by left | done].
  - cbn [length Nat.eqb].
    destruct (Js.split "@" email !! 1%nat) as [d |]; cbn [fmap option_fmap option_map].
    + rewrite includes_spec. split.
      * intros H. right. eauto.
      * intros [? | (d' & [= <-] & H)]; done.
    + simpl. split; [done |]. intros [? | (d' & ? & _)]; done.
Qed.

(** With a whitelist written in lower case the comparison ignores case. *)
Lemma isEmailAllowed_lower_case_whitelist (email : string) :
  Forall (fun entry => Js.toLowerCase entry = entry) (ALLOWED_DOMAINS E) ->
  isEmailAllowed E email = true <->
  ALLOWED_DOMAINS E = []
  \/ exists d entry,
       domainOf email = Some d /\ entry ∈ ALLOWED_DOMAINS E
       /\ sameDomain d entry.
Proof.
  intros Hlow. rewrite isEmailAllowed_spec. unfold sameDomain.
  rewrite Forall_forall in Hlow. split.
  - intros [? | (d & Hd & Hin)]; [by left | right].
    exists d, (Js.toLowerCase d). by rewrite toLowerCase_idem.
  - intros [? | (d & entry & Hd & Hin & Hsame)]; [by left | right].
    exists d. split; [done |]. by rewrite Hsame, (Hlow _ Hin).
Qed.
End Whitelist.

(** C6. A whitelist entry written with a capital letter admits nobody: with
    [ALLOWED_DOMAINS="Example.com"] the address [user@example.com], whose
    domain equals the entry up to letter case, is refused. Only the address
    is lower-cased, the entries are compared as configured. *)
Theorem isEmailAllowed_capitalised_entry :
  let E := withWhitelist "Example.com" sampleEnv in
  ALLOWED_DOMAINS E = ["Example.com"]
  /\ domainOf "user@example.com" = Some "example.com"
  /\ sameDomain "example.com" "Example.com"
  /\ isEmailAllowed E "user@example.com" = false.
Proof. repeat split. Qed.

(** ** Rotation *)

Ltac normalise_world :=
  cbn [tokens users ticks drawn ops console countOp tick draw logged withTokens].
Ltac normalise_world_in H :=
  cbn [tokens users ticks drawn ops console countOp tick draw logged withTokens]
    in H.

(** One await of the program under [run], in the goal or in a hypothesis. *)
Ltac step :=
  rewrite ?run_bind, ?run_await, ?run_lift; cbn [handle run];
  unfold storeCall; normalise_world.
Ltac step_in H :=
  rewrite ?run_bind, ?run_await, ?run_lift in H; cbn [handle run] in H;
  unfold storeCall in H; normalise_world_in H.

Section Rotation.
Context (P : Platform) (E : ProcessEnv).

Lemma createRefreshToken_run (owner : option string) (w : World) :
  run P (createRefreshToken E owner) w =
  let w1 := tick (draw 64 w) in
  match owner with
  | None => (Err PrismaValidationError, w1)
  | Some uid =>
      if storeFault P (ops w) then (Err StoreFault, countOp w1)
      else match tokens w !! nextToken P w, userById w uid with
           | Some _, _ => (Err (PrismaKnownError "P2002"), countOp w1)
           | None, None => (Err (PrismaKnownError "P2003"), countOp w1)
           | None, Some _ =>
               (Ok (nextToken P w),
                withTokens
                  (<[nextToken P w :=
                       RefreshToken.mk uid (nextToken P w)
                         (clock P (ticks w) + REFRESH_TOKEN_TTL E * 1000)%Z
                         None]> (tokens w)) (countOp w1))
           end
  end.
Proof.
  unfold createRefreshToken.
  rewrite run_bind, run_await. cbn [handle].
  rewrite run_bind, run_await. cbn [handle].
  rewrite run_bind.
  destruct owner as [uid |]; [| reflexivity].
  rewrite run_await. cbn [handle]. unfold storeCall, userById.
  normalise_world. fold (nextToken P w).
  destruct (storeFault P (ops w)); [reflexivity |].
  destruct (tokens w !! nextToken P w); [reflexivity |].
  destruct (find _ _); reflexivity.
Qed.

(** Whatever [createRefreshToken] does, the rows already stored stay. *)
Lemma createRefreshToken_keeps (owner : option string) (w : World)
    (k : string) (r : RefreshToken.t) :
  tokens w !! k = Some r ->
  tokens (run P (createRefreshToken E owner) w).2 !! k = Some r.
Proof.
  intros Hk. rewrite createRefreshToken_run. cbv zeta.
  destruct owner as [uid |]; [| done].
  destruct (storeFault P (ops w)); [done |].
  destruct (tokens w !! nextToken P w) eqn:Hnew; [done |].
  destruct (userById w uid); [| done].
  cbn [snd]. normalise_world.
  rewrite lookup_insert_ne; [done |].
  intros Heq. rewrite Heq in Hnew. congruence.
Qed.

(** *** [refreshAccessToken] *)

Lemma refreshAccessToken_Ok_inv (token token' : JWT.t) (w w' : World) :
  run P (refreshAccessToken E token) w = (Ok token', w') ->
  exists presentedValue r owner u,
    JWT.refreshToken token = Some presentedValue /\ presentedValue <> ""
    /\ tokens w !! presentedValue = Some r
    /\ usable (clock P (ticks w)) r
    /\ JWT.userId token = Some owner /\ userById w owner = Some u
    /\ tokens w !! nextToken P w = None
    /\ nextToken P w <> presentedValue
    /\ w' = afterRotation P E presentedValue r owner w
    /\ token' = JWT.withRefresh (nextToken P w)
                  (clock P (3 + ticks w) + REFRESH_TOKEN_TTL E * 1000)%Z
                  token.
Proof.
  unfold refreshAccessToken. intros H.
  destruct (JWT.refreshToken token) as [[| c rt] |] eqn:Hrt; try done.
  step_in H.
  destruct (storeFault P (ops w)) eqn:Hf1; [done |].
  destruct (tokens w !! String c rt) as [r |] eqn:Hfind; [| done].
  destruct (RefreshToken.revokedAt r) eqn:Hrev; [done |].
  step_in H.
  destruct (RefreshToken.expiresAt r <? clock P (ticks w))%Z eqn:Hexp;
    [done |].
  step_in H. step_in H.
  destruct (storeFault P (S (ops w))) eqn:Hf2; [done |].
  rewrite Hfind in H.
  rewrite run_bind, createRefreshToken_run in H.
  unfold userById, nextToken in H. normalise_world_in H.
  fold (nextToken P w) in H.
  destruct (JWT.userId token) as [uid |] eqn:Huid; [| done].
  destruct (storeFault P (S (S (ops w)))) eqn:Hf3; [done |].
  destruct (decide (nextToken P w = String c rt)) as [Heq | Hne].
  { rewrite Heq, lookup_insert_eq in H. done. }
  rewrite lookup_insert_ne in H by done.
  destruct (tokens w !! nextToken P w) eqn:Hfresh; [done |].
  destruct (find _ (users w)) as [u |] eqn:Hu; [| done].
  step_in H. injection H as <- <-.
  exists (String c rt), r, uid, u. unfold usable. repeat split; try done.
  by apply Z.ltb_ge.
Qed.

Lemma refreshAccessToken_Ok_intro (token : JWT.t) (w : World)
    (presentedValue owner : string) (r : RefreshToken.t) (u : User.t) :
  healthy P ->
  JWT.refreshToken token = Some presentedValue -> presentedValue <> "" ->
  tokens w !! presentedValue = Some r ->
  usable (clock P (ticks w)) r ->
  JWT.userId token = Some owner -> userById w owner = Some u ->
  tokens w !! nextToken P w = None ->
  run P (refreshAccessToken E token) w =
    (Ok (JWT.withRefresh (nextToken P w)
           (clock P (3 + ticks w) + REFRESH_TOKEN_TTL E * 1000)%Z token),
     afterRotation P E presentedValue r owner w).
Proof.
  intros Hh Hrt Hne Hfind [Hrev Hexp] Huid Hu Hfresh.
  unfold refreshAccessToken. rewrite Hrt.
  destruct presentedValue as [| c rt]; [done |].
  step. rewrite Hh, Hfind, Hrev.
  step. apply Z.ltb_ge in Hexp. rewrite Hexp.
  step. step. rewrite Hh, Hfind.
  rewrite run_bind, createRefreshToken_run, Huid.
  unfold userById in *. unfold nextToken in *. normalise_world.
  rewrite Hh, lookup_insert_ne, Hfresh, Hu by congruence.
  reflexivity.
Qed.

(** A presented value that is unknown, revoked or expired is refused, and
    the tables are left as they were. *)
Lemma refreshAccessToken_refuses (token : JWT.t) (w : World)
    (presentedValue : string) :
  healthy P ->
  JWT.refreshToken token = Some presentedValue -> presentedValue <> "" ->
  (forall r, tokens w !! presentedValue = Some r ->
             ~ usable (clock P (ticks w)) r) ->
  exists w',
    run P (refreshAccessToken E token) w = (Err invalidRefreshToken, w')
    /\ tokens w' = tokens w /\ users w' = users w
    /\ ticks w <= ticks w'.
Proof.
  intros Hh Hrt Hne Hbad.
  unfold refreshAccessToken. rewrite Hrt.
  destruct presentedValue as [| c rt]; [done |].
  step. rewrite Hh.
  destruct (tokens w !! String c rt) as [r |] eqn:Hfind.
  2: { eexists. split; [reflexivity |]. cbn. auto. }
  destruct (RefreshToken.revokedAt r) eqn:Hrev.
  { eexists. split; [reflexivity |]. cbn. auto. }
  step.
  destruct (RefreshToken.expiresAt r <? clock P (ticks w))%Z eqn:Hexp.
  { eexists. split; [reflexivity |]. cbn. auto. }
  exfalso. apply (Hbad r eq_refl). split; [done | by apply Z.ltb_ge].
Qed.
End Rotation.

Lemma samplePlatform_healthy : healthy samplePlatform.
Proof. intros k. reflexivity. Qed.

Lemma samplePlatform_monotone : monotoneClock samplePlatform.
Proof. intros i j Hij. simpl. lia. Qed.

Section RotationTwice.
Context (P : Platform) (E : ProcessEnv).

Lemma usable_earlier (now now' : Z) (r : RefreshToken.t) :
  (now <= now')%Z -> usable now' r -> usable now r.
Proof. unfold usable. intros Hle [Hrev Hexp]. split; [done | lia]. Qed.

(** Past the check, the presented row is revoked whatever happens next. *)
Lemma refreshAccessToken_consumes (token : JWT.t) (w : World)
    (presentedValue : string) (r : RefreshToken.t) :
  healthy P ->
  JWT.refreshToken token = Some presentedValue -> presentedValue <> "" ->
  tokens w !! presentedValue = Some r ->
  usable (clock P (ticks w)) r ->
  exists w' revokedAt,
    (run P (refreshAccessToken E token) w).2 = w'
    /\ tokens w' !! presentedValue
       = Some (RefreshToken.withRevokedAt revokedAt r).
Proof.
  intros Hh Hrt Hne Hfind [Hrev Hexp].
  unfold refreshAccessToken. rewrite Hrt.
  destruct presentedValue as [| c rt]; [done |].
  step. rewrite Hh, Hfind, Hrev.
  step. apply Z.ltb_ge in Hexp. rewrite Hexp.
  step. step. rewrite Hh, Hfind. rewrite run_bind.
  match goal with
  | |- context [run P (createRefreshToken E ?o) ?w2] =>
      pose proof (createRefreshToken_keeps P E o w2 (String c rt)
                    (RefreshToken.withRevokedAt (clock P (S (ticks w))) r))
        as Hkeep;
      destruct (run P (createRefreshToken E o) w2) as [[new | e] w3]
  end.
  - step. eexists _, _. split; [reflexivity |]. normalise_world.
    apply Hkeep. normalise_world. apply lookup_insert_eq.
  - eexists _, _. split; [reflexivity |]. cbn [snd].
    apply Hkeep. normalise_world. apply lookup_insert_eq.
Qed.

(** Presenting the same value again, right after a first call, fails. *)
Lemma refreshAccessToken_again (token : JWT.t) (w : World)
    (presentedValue : string) :
  healthy P -> monotoneClock P ->
  JWT.refreshToken token = Some presentedValue -> presentedValue <> "" ->
  (run P (refreshAccessToken E token)
     (run P (refreshAccessToken E token) w).2).1
  = Err invalidRefreshToken.
Proof.
  intros Hh Hmono Hrt Hne.
  assert (Hcases :
    (exists r, tokens w !! presentedValue = Some r
               /\ usable (clock P (ticks w)) r)
    \/ (forall r, tokens w !! presentedValue = Some r ->
                  ~ usable (clock P (ticks w)) r)).
  { destruct (tokens w !! presentedValue) as [r |]; [| by right].
    unfold usable.
    destruct (RefreshToken.revokedAt r) eqn:Hrev;
      [right; intros ? [= <-] [? _]; congruence |].
    destruct (Z.le_gt_cases (clock P (ticks w)) (RefreshToken.expiresAt r)).
    - left. eauto.
    - right. intros ? [= <-] [_ ?]. lia. }
  destruct Hcases as [(r & Hfind & Huse) | Hbad].
  - destruct (refreshAccessToken_consumes token w presentedValue r)
      as (w1 & revokedAt & -> & Hrow); try done.
    destruct (refreshAccessToken_refuses P E token w1 presentedValue)
      as (w2 & -> & _); try done.
    intros r' Hr' [Hrev _]. rewrite Hrow in Hr'. by injection Hr' as <-.
  - destruct (refreshAccessToken_refuses P E token w presentedValue)
      as (w1 & -> & Htok & _ & Hticks); try done.
    cbn [snd].
    destruct (refreshAccessToken_refuses P E token w1 presentedValue)
      as (w2 & -> & _); try done.
    intros r' Hr' Huse. rewrite Htok in Hr'.
    apply (Hbad r' Hr'). eapply usable_earlier; [| exact Huse].
    by apply Hmono.
Qed.

End RotationTwice.

(** ** The refresh endpoint *)

Section Refresh.
Context (P : Platform) (E : ProcessEnv).

Lemma presented_cases (request : NextRequest) :
  match parseCookies P (cookieHeader request) with
  | Err e => presented P request = Err e
  | Ok cookies =>
      match cookies !! "refresh-token" with
      | Some (String c rest) => presented P request = Ok (Some (String c rest))
      | _ => presented P request = Ok None
      end
  end.
Proof.
  unfold presented.
  destruct (parseCookies P (cookieHeader request)) as [cookies | e]; [| done].
  by destruct (cookies !! "refresh-token") as [[| c rest] |].
Qed.

(** The three ways the [try] block of [POST] returns. *)
Lemma POST_try_Ok_inv (request : NextRequest) (resp : Response.t)
    (w w' : World) :
  run P (POST_try P E request) w = (Ok resp, w') ->
  (presented P request = Ok None /\ resp = noRefreshTokenResponse /\ w' = w)
  \/ (exists rt,
        presented P request = Ok (Some rt)
        /\ resp = invalidRefreshTokenResponse
        /\ (forall r, tokens w !! rt = Some r ->
                      ~ usable (clock P (ticks w)) r)
        /\ tokens w' = tokens w /\ users w' = users w)
  \/ (exists rt r u a,
        presented P request = Ok (Some rt)
        /\ tokens w !! rt = Some r
        /\ usable (clock P (ticks w)) r
        /\ userById w (RefreshToken.userId r) = Some u
        /\ tokens w !! nextToken P w = None
        /\ nextToken P w <> rt
        /\ signHS256 P (env_JWT_SECRET E)
             (Claims.mk (RefreshToken.userId r) (Some (User.email u))
                        "access")
             (clock P (3 + ticks w)) (ACCESS_TOKEN_TTL E) = Ok a
        /\ w' = afterRotation P E rt r (RefreshToken.userId r) w
        /\ resp = refreshedResponse P E a (nextToken P w) u).
Proof.
  unfold POST_try. intros H.
  pose proof (presented_cases request) as Hp.
  step_in H.
  destruct (parseCookies P (cookieHeader request)) as [cookies | e];
    [| done].
  destruct (cookies !! "refresh-token") as [[| c rt] |].
  1, 3: injection H as <- <-; by left.
  right. step_in H.
  destruct (storeFault P (ops w)) eqn:Hf1; [done |].
  destruct (tokens w !! String c rt) as [r |] eqn:Hfind;
    cbn [fmap option_fmap option_map] in H.
  2: { injection H as <- <-. left. exists (String c rt).
       repeat split; try done. congruence. }
  destruct (RefreshToken.revokedAt r) eqn:Hrev.
  { injection H as <- <-. left. exists (String c rt).
    repeat split; try done.
    intros r0 Hr0 [? _]. rewrite Hfind in Hr0. congruence. }
  step_in H.
  destruct (RefreshToken.expiresAt r <? clock P (ticks w))%Z eqn:Hexp.
  { injection H as <- <-. left. exists (String c rt).
    repeat split; try done. intros r0 Hr0 [_ ?].
    rewrite Hfind in Hr0. injection Hr0 as <-.
    apply Z.ltb_lt in Hexp. lia. }
  right. unfold rotateAndSign in H.
  step_in H. step_in H.
  destruct (storeFault P (S (ops w))) eqn:Hf2; [done |].
  rewrite Hfind in H.
  step_in H. step_in H. step_in H.
  unfold userById in H. normalise_world_in H. fold (nextToken P w) in H.
  destruct (storeFault P (S (S (ops w)))) eqn:Hf3; [done |].
  destruct (decide (nextToken P w = String c rt)) as [Heq | Hne].
  { rewrite Heq, lookup_insert_eq in H. done. }
  rewrite lookup_insert_ne in H by done.
  destruct (tokens w !! nextToken P w) eqn:Hfresh; [done |].
  destruct (find _ (users w)) as [u |] eqn:Hu; [| done].
  step_in H. step_in H.
  destruct (signHS256 P _ _ _ _) as [a | e] eqn:Hsign; [| done].
  step_in H. injection H as <- <-.
  exists (String c rt), r, u, a. unfold usable. repeat split; try done.
  by apply Z.ltb_ge.
Qed.

(** Whatever happens, [POST] responds, with one of four responses. *)
Lemma POST_responds (request : NextRequest) (w : World) :
  exists resp w',
    run P (POST P E request) w = (Ok resp, w')
    /\ (resp = noRefreshTokenResponse
        \/ resp = invalidRefreshTokenResponse
        \/ resp = refreshFailedResponse
        \/ exists a n u, resp = refreshedResponse P E a n u).
Proof.
  unfold POST. rewrite run_tryCatch.
  destruct (run P (POST_try P E request) w) as [[resp | e] w1] eqn:Hrun.
  - exists resp, w1. split; [done |].
    apply POST_try_Ok_inv in Hrun
      as [(_ & -> & _) | [(rt & _ & -> & _) | (rt & r & u & a & H)]];
      [by left | by right; left |].
    right; right; right. exists a, (nextToken P w), u. apply H.
  - step. eexists _, _. split; [reflexivity |]. by right; right; left.
Qed.

(** A response with status 200 means the rotation took place. *)
Lemma POST_200_inv (request : NextRequest) (resp : Response.t)
    (w w' : World) :
  run P (POST P E request) w = (Ok resp, w') ->
  Response.status resp = 200 ->
  exists rt r u a,
    presented P request = Ok (Some rt)
    /\ tokens w !! rt = Some r
    /\ usable (clock P (ticks w)) r
    /\ userById w (RefreshToken.userId r) = Some u
    /\ tokens w !! nextToken P w = None
    /\ nextToken P w <> rt
    /\ w' = afterRotation P E rt r (RefreshToken.userId r) w
    /\ resp = refreshedResponse P E a (nextToken P w) u.
Proof.
  unfold POST. rewrite run_tryCatch. intros H Hstatus.
  destruct (run P (POST_try P E request) w) as [[resp1 | e] w1] eqn:Hrun.
  - injection H as <- <-.
    apply POST_try_Ok_inv in Hrun
      as [(_ & -> & _) | [(rt & _ & -> & _) | (rt & r & u & a & H)]];
      [done | done |].
    exists rt, r, u, a. intuition.
  - step_in H. injection H as <- <-. done.
Qed.

(** The rotation goes through when nothing stands in its way. *)
Lemma POST_rotates (request : NextRequest) (w : World) (rt a : string)
    (r : RefreshToken.t) (u : User.t) :
  healthy P ->
  presented P request = Ok (Some rt) ->
  tokens w !! rt = Some r ->
  usable (clock P (ticks w)) r ->
  userById w (RefreshToken.userId r) = Some u ->
  tokens w !! nextToken P w = None ->
  signHS256 P (env_JWT_SECRET E)
    (Claims.mk (RefreshToken.userId r) (Some (User.email u)) "access")
    (clock P (3 + ticks w)) (ACCESS_TOKEN_TTL E) = Ok a ->
  run P (POST P E request) w =
    (Ok (refreshedResponse P E a (nextToken P w) u),
     afterRotation P E rt r (RefreshToken.userId r) w).
Proof.
  intros Hh Hp Hfind [Hrev Hexp] Hu Hfresh Hsign.
  unfold POST, POST_try. rewrite run_tryCatch.
  pose proof (presented_cases request) as Hp'.
  step.
  destruct (parseCookies P (cookieHeader request)) as [cookies | e];
    [| congruence].
  destruct (cookies !! "refresh-token") as [[| c rest] |]; try congruence.
  rewrite Hp in Hp'. injection Hp' as ->.
  step. rewrite Hh, Hfind. cbn [fmap option_fmap option_map].
  rewrite Hrev. step. apply Z.ltb_ge in Hexp. rewrite Hexp.
  unfold rotateAndSign. step. step. rewrite Hh, Hfind.
  step. step. step. unfold userById in *. normalise_world.
  fold (nextToken P w).
  rewrite Hh, lookup_insert_ne, Hfresh, Hu by congruence.
  cbn [Nat.add] in Hsign.
  step. step. rewrite Hsign. reflexivity.
Qed.

(** An unknown, revoked or expired value is answered with the 401 that
    clears the cookie; the tables stay as they were. *)
Lemma POST_refuses (request : NextRequest) (w : World) (rt : string) :
  healthy P ->
  presented P request = Ok (Some rt) ->
  (forall r, tokens w !! rt = Some r -> ~ usable (clock P (ticks w)) r) ->
  exists w',
    run P (POST P E request) w = (Ok invalidRefreshTokenResponse, w')
    /\ tokens w' = tokens w /\ users w' = users w
    /\ drawn w' = drawn w /\ ticks w <= ticks w'.
Proof.
  intros Hh Hp Hbad.
  unfold POST, POST_try. rewrite run_tryCatch.
  pose proof (presented_cases request) as Hp'.
  step.
  destruct (parseCookies P (cookieHeader request)) as [cookies | e];
    [| congruence].
  destruct (cookies !! "refresh-token") as [[| c rest] |]; try congruence.
  rewrite Hp in Hp'. injection Hp' as ->.
  step. rewrite Hh.
  destruct (tokens w !! String c rest) as [r |] eqn:Hfind;
    cbn [fmap option_fmap option_map].
  2: { eexists. split; [reflexivity |]. cbn. auto. }
  destruct (RefreshToken.revokedAt r) eqn:Hrev.
  { eexists. split; [reflexivity |]. cbn. auto. }
  step.
  destruct (RefreshToken.expiresAt r <? clock P (ticks w))%Z eqn:Hexp.
  { eexists. split; [reflexivity |]. cbn. auto. }
  exfalso. apply (Hbad r eq_refl). split; [done | by apply Z.ltb_ge].
Qed.
End Refresh.

(** ** The check of the rotation *)

Section Check.
Context (P : Platform) (E : ProcessEnv).

(** [POST] answers "Invalid refresh token" only when the check fails. *)
Lemma POST_invalid_inv (request : NextRequest) (w w' : World) (rt : string) :
  presented P request = Ok (Some rt) ->
  run P (POST P E request) w = (Ok invalidRefreshTokenResponse, w') ->
  forall r, tokens w !! rt = Some r -> ~ usable (clock P (ticks w)) r.
Proof.
  unfold POST. rewrite run_tryCatch. intros Hp H.
  destruct (run P (POST_try P E request) w) as [[resp | e] w1] eqn:Hrun.
  - injection H as -> <-.
    apply POST_try_Ok_inv in Hrun
      as [(_ & ? & _) | [(rt' & Hp' & _ & Hbad & _) | (? & ? & ? & ? & H)]].
    + done.
    + rewrite Hp in Hp'. by injection Hp' as <-.
    + destruct H as (_ & _ & _ & _ & _ & _ & _ & _ & ?). done.
  - step_in H. injection H as ? _. done.
Qed.

(** C2, as the code has it. With a store that answers, a clock that does
    not run backwards, a JWT that names an existing user and a fresh random
    value, [refreshAccessToken] succeeds exactly when the presented value
    is stored, not revoked and not yet past its expiry ([expiresAt < now]
    is false, so the instant of expiry itself still passes); a second call
    with the same value, run on what the first call left, fails with
    "Invalid refresh token"; and [POST] answers 401 "Invalid refresh token"
    exactly when that check fails. *)
Theorem rotation_succeeds_iff_usable (token : JWT.t) (w : World)
    (presentedValue owner : string) (u : User.t) :
  healthy P -> monotoneClock P ->
  JWT.refreshToken token = Some presentedValue -> presentedValue <> "" ->
  JWT.userId token = Some owner -> userById w owner = Some u ->
  tokens w !! nextToken P w = None ->
  let passes :=
    exists r, tokens w !! presentedValue = Some r
              /\ RefreshToken.revokedAt r = None
              /\ (clock P (ticks w) <= RefreshToken.expiresAt r)%Z in
  (isOk (run P (refreshAccessToken E token) w).1 = true <-> passes)
  /\ (run P (refreshAccessToken E token)
        (run P (refreshAccessToken E token) w).2).1
     = Err invalidRefreshToken
  /\ (forall request,
        presented P request = Ok (Some presentedValue) ->
        (run P (POST P E request) w).1 = Ok invalidRefreshTokenResponse
        <-> ~ passes).
Proof.
  intros Hh Hmono Hrt Hne Huid Hu Hfresh passes. subst passes.
  split; [| split].
  - split.
    + destruct (run P (refreshAccessToken E token) w) as [[token' | e] w']
        eqn:Hrun; [| done].
      intros _.
      apply refreshAccessToken_Ok_inv in Hrun
        as (rt & r & ? & ? & Hrt' & _ & Hfind & Huse & _).
      rewrite Hrt in Hrt'. injection Hrt' as <-. by exists r.
    + intros (r & Hfind & Hrev & Hexp).
      erewrite refreshAccessToken_Ok_intro; try done.
  - by eapply refreshAccessToken_again.
  - intros request Hp. split.
    + intros Hrun (r & Hfind & Huse).
      destruct (run P (POST P E request) w) as [res w'] eqn:Hpost.
      cbn [fst] in Hrun. subst res.
      by apply (POST_invalid_inv request w w' presentedValue Hp Hpost r).
    + intros Hbad.
      destruct (POST_refuses P E request w presentedValue Hh Hp)
        as (w' & -> & _); [| done].
      intros r Hfind [Hrev Hexp]. apply Hbad. by exists r.
Qed.
End Check.

Lemma rotation_succeeds_iff_usable_witness :
  let passes :=
    exists r, tokens sampleWorld !! "alice-refresh-token" = Some r
              /\ RefreshToken.revokedAt r = None
              /\ (clock samplePlatform (ticks sampleWorld)
                  <= RefreshToken.expiresAt r)%Z in
  (isOk (run samplePlatform (refreshAccessToken sampleEnv aliceJWT)
           sampleWorld).1 = true <-> passes)
  /\ (run samplePlatform (refreshAccessToken sampleEnv aliceJWT)
        (run samplePlatform (refreshAccessToken sampleEnv aliceJWT)
           sampleWorld).2).1
     = Err invalidRefreshToken
  /\ (forall request,
        presented samplePlatform request = Ok (Some "alice-refresh-token") ->
        (run samplePlatform (POST samplePlatform sampleEnv request)
           sampleWorld).1 = Ok invalidRefreshTokenResponse
        <-> ~ passes).
Proof.
  apply (rotation_succeeds_iff_usable samplePlatform sampleEnv aliceJWT
           sampleWorld "alice-refresh-token" "u1" alice).
  - exact samplePlatform_healthy.
  - exact samplePlatform_monotone.
  - reflexivity.
  - discriminate.
  - reflexivity.
  - reflexivity.
  - vm_compute. reflexivity.
Defined.

(** C2, as stated, fails at the instant of expiry: when the clock reads
    exactly [expiresAt], the token is not strictly in the future any more,
    yet the rotation succeeds. *)
Lemma rotation_at_expiry_instant :
  isOk (run samplePlatform (refreshAccessToken sampleEnv aliceJWT)
          atExpiry).1 = true
  /\ ~ exists r, tokens atExpiry !! "alice-refresh-token" = Some r
                 /\ RefreshToken.revokedAt r = None
                 /\ (clock samplePlatform (ticks atExpiry)
                     < RefreshToken.expiresAt r)%Z.
Proof.
  split; [vm_compute; reflexivity |].
  intros (r & Hr & _ & Hlt). vm_compute in Hr. injection Hr as <-.
  vm_compute in Hlt. discriminate.
Qed.


(** ** What a rotation leaves behind *)

Section Frame.
Context (P : Platform) (E : ProcessEnv).

Lemma afterRotation_frame (rt owner : string) (r : RefreshToken.t)
    (w : World) :
  tokens w !! rt = Some r ->
  RefreshToken.revokedAt r = None ->
  tokens w !! nextToken P w = None ->
  rotationFrame rt (nextToken P w) w (afterRotation P E rt r owner w).
Proof.
  intros Hfind Hrev Hfresh.
  assert (Hne : nextToken P w <> rt) by (intros Heq; congruence).
  unfold rotationFrame, afterRotation. normalise_world.
  repeat split.
  - exists r, (RefreshToken.withRevokedAt (clock P (1 + ticks w)) r).
    rewrite lookup_insert_ne, lookup_insert_eq by done.
    repeat split; try done; by eexists.
  - done.
  - rewrite lookup_insert_eq. by eexists.
  - intros k Hk1 Hk2. by rewrite !lookup_insert_ne.
  - rewrite map_size_insert_None
      by (by rewrite lookup_insert_ne).
    f_equal. apply map_size_insert_Some. by eexists.
Qed.

(** The successor row of a rotation, as both paths create it. *)
Lemma afterRotation_successor (rt owner : string) (r : RefreshToken.t)
    (w : World) :
  tokens (afterRotation P E rt r owner w) !! nextToken P w
  = Some (RefreshToken.mk owner (nextToken P w)
            (clock P (2 + ticks w) + REFRESH_TOKEN_TTL E * 1000)%Z None).
Proof. unfold afterRotation. normalise_world. apply lookup_insert_eq. Qed.

Lemma nextToken_shape (w : World) :
  String.length (nextToken P w) = 128
  /\ allChars isHexDigit (nextToken P w) = true.
Proof.
  unfold nextToken. split; [| apply toHex_hex].
  by rewrite toHex_length, length_map, length_seq.
Qed.

(** C10. A rotation that succeeds, through [refreshAccessToken] or through
    [POST] (status 200), changes the store only by giving the presented row
    a [revokedAt] and by adding one row under the new value; every other
    refresh-token row and every user record is left as it was. *)
Theorem rotation_frame :
  (forall token token' w w',
      run P (refreshAccessToken E token) w = (Ok token', w') ->
      exists presentedValue,
        JWT.refreshToken token = Some presentedValue
        /\ JWT.refreshToken token' = Some (nextToken P w)
        /\ rotationFrame presentedValue (nextToken P w) w w')
  /\ (forall request resp w w',
        run P (POST P E request) w = (Ok resp, w') ->
        Response.status resp = 200 ->
        exists presentedValue,
          presented P request = Ok (Some presentedValue)
          /\ rotationFrame presentedValue (nextToken P w) w w').
Proof.
  split.
  - intros token token' w w' Hrun.
    apply refreshAccessToken_Ok_inv in Hrun
      as (rt & r & owner & u & Hrt & _ & Hfind & [Hrev _] & _ & _ & Hfresh
          & _ & -> & ->).
    exists rt. split; [done |]. split; [done |].
    by apply afterRotation_frame.
  - intros request resp w w' Hrun Hstatus.
    apply POST_200_inv in Hrun
      as (rt & r & u & a & Hp & Hfind & [Hrev _] & _ & Hfresh & _ & -> & _);
      [| done].
    exists rt. split; [done |]. by apply afterRotation_frame.
Qed.
End Frame.

Lemma rotation_frame_witness :
  exists presentedValue,
    JWT.refreshToken aliceJWT = Some presentedValue
    /\ JWT.refreshToken
         (JWT.withRefresh (nextToken samplePlatform sampleWorld)
            (clock samplePlatform 3 + REFRESH_TOKEN_TTL sampleEnv * 1000)%Z
            aliceJWT)
       = Some (nextToken samplePlatform sampleWorld)
    /\ rotationFrame presentedValue (nextToken samplePlatform sampleWorld)
         sampleWorld
         (afterRotation samplePlatform sampleEnv "alice-refresh-token"
            aliceToken "u1" sampleWorld).
Proof.
  apply (proj1 (rotation_frame samplePlatform sampleEnv) aliceJWT).
  vm_compute. reflexivity.
Defined.

(** ** The successor token *)

Section Successor.
Context (P : Platform) (E : ProcessEnv).

(** Through [POST] the successor belongs to the owner of the presented row,
    which by then is revoked; its value is 64 random bytes in hexadecimal,
    its expiry the clock reading plus the TTL, and it is not revoked. *)
Lemma POST_successor (request : NextRequest) (resp : Response.t)
    (w w' : World) :
  run P (POST P E request) w = (Ok resp, w') ->
  Response.status resp = 200 ->
  exists presentedValue r,
    presented P request = Ok (Some presentedValue)
    /\ tokens w !! presentedValue = Some r
    /\ tokens w' !! presentedValue
       = Some (RefreshToken.withRevokedAt (clock P (1 + ticks w)) r)
    /\ tokens w' !! nextToken P w
       = Some (RefreshToken.mk (RefreshToken.userId r) (nextToken P w)
                 (clock P (2 + ticks w) + REFRESH_TOKEN_TTL E * 1000)%Z
                 None)
    /\ String.length (nextToken P w) = 128
    /\ allChars isHexDigit (nextToken P w) = true.
Proof.
  intros Hrun Hstatus.
  apply POST_200_inv in Hrun
    as (rt & r & u & a & Hp & Hfind & _ & _ & _ & Hne & -> & _); [| done].
  exists rt, r.
  repeat split; try done; try apply nextToken_shape;
    try apply afterRotation_successor.
  unfold afterRotation. normalise_world.
  by rewrite lookup_insert_ne, lookup_insert_eq.
Qed.

(** Through [refreshAccessToken] the successor belongs to the user id the
    JWT carries, whoever owns the presented row. *)
Lemma refreshAccessToken_successor (token token' : JWT.t) (w w' : World) :
  run P (refreshAccessToken E token) w = (Ok token', w') ->
  exists presentedValue r owner,
    JWT.refreshToken token = Some presentedValue
    /\ JWT.userId token = Some owner
    /\ tokens w !! presentedValue = Some r
    /\ tokens w' !! presentedValue
       = Some (RefreshToken.withRevokedAt (clock P (1 + ticks w)) r)
    /\ tokens w' !! nextToken P w
       = Some (RefreshToken.mk owner (nextToken P w)
                 (clock P (2 + ticks w) + REFRESH_TOKEN_TTL E * 1000)%Z
                 None).
Proof.
  intros Hrun.
  apply refreshAccessToken_Ok_inv in Hrun
    as (rt & r & owner & u & Hrt & _ & Hfind & _ & Huid & _ & _ & Hne
        & -> & _).
  exists rt, r, owner.
  repeat split; try done; try apply afterRotation_successor.
  unfold afterRotation. normalise_world.
  by rewrite lookup_insert_ne, lookup_insert_eq.
Qed.
End Successor.

(** C3 at a JWT whose [userId] is not the owner of its refresh token: the
    rotation through [refreshAccessToken] succeeds, the presented row belongs
    to [u1], and the successor row is created for [u2]. *)
Theorem successor_follows_jwt_userId :
  let out :=
    run samplePlatform (refreshAccessToken sampleEnv mismatchedJWT) sampleWorld
  in
  isOk out.1 = true
  /\ RefreshToken.userId <$> tokens sampleWorld !! "alice-refresh-token"
     = Some "u1"
  /\ RefreshToken.userId
       <$> tokens out.2 !! nextToken samplePlatform sampleWorld
     = Some "u2".
Proof. vm_compute. repeat split. Qed.

(** Such a JWT is what the [jwt] callback itself builds from Alice's token
    when the client sends a session update naming another user: the update is
    merged field by field, the refresh branch is taken, and the successor row
    is created for [u2]. *)
Lemma jwt_update_moves_the_owner :
  let out :=
    run samplePlatform
      (jwt sampleEnv aliceJWT None None (Some "update") (Some forgedUpdate))
      sampleWorld
  in
  (JWT.userId <$> (match out.1 with Ok t => Some t | Err _ => None end))
  = Some (Some "u2")
  /\ RefreshToken.userId
       <$> tokens out.2 !! nextToken samplePlatform sampleWorld
     = Some "u2".
Proof. vm_compute. repeat split. Qed.

(** ** Several requests with one token *)

Section Sequential.
Context (P : Platform) (E : ProcessEnv).

Lemma runAll_refused (request : NextRequest) (rt : string) :
  healthy P ->
  presented P request = Ok (Some rt) ->
  forall n w,
    (forall r, tokens w !! rt = Some r -> RefreshToken.revokedAt r <> None) ->
    exists w',
      runAll P (replicate n (POST P E request)) w
      = (replicate n (Ok invalidRefreshTokenResponse), w').
Proof.
  intros Hh Hp. induction n as [| n IH]; intros w Hrevoked.
  - by exists w.
  - cbn [replicate runAll].
    destruct (POST_refuses P E request w rt) as (w1 & -> & Htok & _);
      try done.
    { intros r Hr [Hrev _]. by apply (Hrevoked r). }
    destruct (IH w1) as (w2 & ->); [by rewrite Htok |].
    by exists w2.
Qed.

(** The part of [POST] that follows the check does not look at the row
    again: resumed in any state in which the row is still stored, revoked
    or not, it overwrites [revokedAt], creates the successor and answers
    200. *)
Lemma rotateAndSign_unconditional (rt a : string) (r r1 : RefreshToken.t)
    (u : User.t) (w1 : World) :
  healthy P ->
  tokens w1 !! rt = Some r1 ->
  is_Some (userById w1 (RefreshToken.userId r)) ->
  tokens w1 !! nextToken P w1 = None ->
  signHS256 P (env_JWT_SECRET E)
    (Claims.mk (RefreshToken.userId r) (Some (User.email u)) "access")
    (clock P (2 + ticks w1)) (ACCESS_TOKEN_TTL E) = Ok a ->
  exists w2,
    run P (rotateAndSign P E rt r (Some u)) w1
    = (Ok (refreshedResponse P E a (nextToken P w1) u), w2)
    /\ tokens w2
       = <[nextToken P w1 :=
             RefreshToken.mk (RefreshToken.userId r) (nextToken P w1)
               (clock P (1 + ticks w1) + REFRESH_TOKEN_TTL E * 1000)%Z None]>
           (<[rt := RefreshToken.withRevokedAt (clock P (ticks w1)) r1]>
              (tokens w1)).
Proof.
  intros Hh Hfind [u1 Hu] Hfresh Hsign.
  unfold rotateAndSign. step. step. rewrite Hh, Hfind.
  step. step. step. unfold userById in *. normalise_world.
  fold (nextToken P w1).
  rewrite Hh, lookup_insert_ne, Hfresh, Hu by congruence.
  cbn [Nat.add] in Hsign.
  step. step. rewrite Hsign. step. eexists. split; [reflexivity |].
  normalise_world. reflexivity.
Qed.

(** Once the check has accepted the presented row, [POST] revokes it
    whatever comes next: the answer is the 200 payload when the owner is a
    user, the next random value is not yet a token and the signer accepts,
    and the 500 of the [catch] block otherwise. *)
Lemma POST_consumes (request : NextRequest) (w : World) (rt : string)
    (r : RefreshToken.t) :
  healthy P ->
  presented P request = Ok (Some rt) ->
  tokens w !! rt = Some r ->
  usable (clock P (ticks w)) r ->
  exists resp w',
    run P (POST P E request) w = (Ok resp, w')
    /\ (Response.status resp = 200 \/ resp = refreshFailedResponse)
    /\ (Response.status resp = 200 <->
        exists u a,
          userById w (RefreshToken.userId r) = Some u
          /\ tokens w !! nextToken P w = None
          /\ signHS256 P (env_JWT_SECRET E)
               (Claims.mk (RefreshToken.userId r) (Some (User.email u))
                          "access")
               (clock P (3 + ticks w)) (ACCESS_TOKEN_TTL E) = Ok a)
    /\ (forall r', tokens w' !! rt = Some r' ->
                   RefreshToken.revokedAt r' <> None).
Proof.
  intros Hh Hp Hfind Huse.
  destruct (POST_responds P E request w) as (resp & w' & Hrun & Hresp).
  exists resp, w'. split; [done |].
  assert (Hrevoked : forall r', tokens w' !! rt = Some r' ->
                                RefreshToken.revokedAt r' <> None).
  { revert Hrun. destruct Huse as [Hrev Hexp].
    unfold POST, POST_try. rewrite run_tryCatch.
    pose proof (presented_cases P request) as Hp'.
    step.
    destruct (parseCookies P (cookieHeader request)) as [cookies | e];
      [| congruence].
    destruct (cookies !! "refresh-token") as [[| c rest] |]; try congruence.
    rewrite Hp in Hp'. injection Hp' as ->.
    step. rewrite Hh, Hfind. cbn [fmap option_fmap option_map].
    rewrite Hrev. step. apply Z.ltb_ge in Hexp. rewrite Hexp.
    unfold rotateAndSign. step. step. rewrite Hh, Hfind.
    step. step. step. unfold userById. normalise_world.
    fold (nextToken P w). rewrite Hh.
    assert (Hrow : forall m : gmap string RefreshToken.t,
      tokens w' = m ->
      m !! String c rest
      = Some (RefreshToken.withRevokedAt (clock P (S (ticks w))) r) ->
      forall r', tokens w' !! String c rest = Some r' ->
                 RefreshToken.revokedAt r' <> None).
    { intros m -> Hm r' Hr'. rewrite Hm in Hr'. by injection Hr' as <-. }
    destruct (_ !! nextToken P w) eqn:Hnext.
    { step. intros [= _ <-]. apply (Hrow _ eq_refl). normalise_world.
      apply lookup_insert_eq. }
    destruct (find _ (users w)) as [u |].
    2: { step. intros [= _ <-]. apply (Hrow _ eq_refl). normalise_world.
         apply lookup_insert_eq. }
    assert (Hne : nextToken P w <> String c rest).
    { intros Heq. rewrite Heq, lookup_insert_eq in Hnext. done. }
    step. step.
    destruct (signHS256 P _ _ _ _).
    - step. intros [= _ <-]. apply (Hrow _ eq_refl). normalise_world.
      rewrite lookup_insert_ne by done. apply lookup_insert_eq.
    - step. intros [= _ <-]. apply (Hrow _ eq_refl). normalise_world.
      rewrite lookup_insert_ne by done. apply lookup_insert_eq. }
  split; [| split; [| done]].
  - destruct Hresp as [-> | [-> | [-> | (a & n & u & ->)]]].
    + exfalso. unfold POST in Hrun. rewrite run_tryCatch in Hrun.
      destruct (run P (POST_try P E request) w) as [[resp1 | e] w1] eqn:Htry.
      * injection Hrun as -> <-.
        apply POST_try_Ok_inv in Htry
          as [(Hnone & _) | [(? & _ & ? & _) | (? & ? & ? & ? & H)]].
        -- congruence.
        -- done.
        -- by destruct H as (_ & _ & _ & _ & _ & _ & _ & _ & ?).
      * step_in Hrun. by injection Hrun.
    + exfalso.
      by apply (POST_invalid_inv P E request w w' rt Hp Hrun r Hfind).
    + by right.
    + by left.
  - split.
    + intros Hstatus. unfold POST in Hrun. rewrite run_tryCatch in Hrun.
      destruct (run P (POST_try P E request) w) as [[resp1 | e] w1] eqn:Htry.
      * injection Hrun as -> <-.
        apply POST_try_Ok_inv in Htry
          as [(_ & -> & _) | [(? & _ & -> & _) | (rt' & r0 & u & a & H)]];
          [done | done |].
        destruct H as (Hp' & Hfind' & _ & Hu & Hfresh & _ & Hsign & _).
        rewrite Hp in Hp'. injection Hp' as <-.
        rewrite Hfind in Hfind'. injection Hfind' as <-.
        by exists u, a.
      * step_in Hrun. injection Hrun as <- _. done.
    + intros (u & a & Hu & Hfresh & Hsign).
      rewrite (POST_rotates P E request w rt a r u) in Hrun by done.
      by injection Hrun as <- _.
Qed.

(** C1, for requests served one after the other. Of [n + 1] calls of
    [POST] presenting the same usable token to a store that answers, run
    in sequence, at most the first succeeds: it is answered 200 exactly
    when the owner's user row exists, the random value drawn for the
    successor is not yet a stored token and the signer accepts, and 500
    otherwise; each of the other [n] is answered with the 401 that clears
    the cookie. For calls that are not served in sequence there is no such
    bound: a call that has passed the check with the row [r] and resumes
    later, in any state [w1] in which the row is still stored, revoked in
    the meantime or not, overwrites [revokedAt], creates a successor and is
    answered 200, given an owner, a fresh value and a signature of its
    own. *)
Theorem sequential_rotations_one_success (request : NextRequest)
    (w : World) (rt : string) (r : RefreshToken.t) (n : nat) :
  healthy P ->
  presented P request = Ok (Some rt) ->
  tokens w !! rt = Some r ->
  usable (clock P (ticks w)) r ->
  (exists resp w',
      runAll P (replicate (S n) (POST P E request)) w
      = (Ok resp :: replicate n (Ok invalidRefreshTokenResponse), w')
      /\ (Response.status resp = 200 \/ resp = refreshFailedResponse)
      /\ (Response.status resp = 200 <->
          exists u a,
            userById w (RefreshToken.userId r) = Some u
            /\ tokens w !! nextToken P w = None
            /\ signHS256 P (env_JWT_SECRET E)
                 (Claims.mk (RefreshToken.userId r) (Some (User.email u))
                            "access")
                 (clock P (3 + ticks w)) (ACCESS_TOKEN_TTL E) = Ok a)
      /\ Response.status refreshFailedResponse = 500
      /\ Response.status invalidRefreshTokenResponse = 401
      /\ cookieCleared invalidRefreshTokenResponse)
  /\ (forall (w1 : World) (r1 : RefreshToken.t) (u : User.t) (a : string),
        tokens w1 !! rt = Some r1 ->
        is_Some (userById w1 (RefreshToken.userId r)) ->
        tokens w1 !! nextToken P w1 = None ->
        signHS256 P (env_JWT_SECRET E)
          (Claims.mk (RefreshToken.userId r) (Some (User.email u)) "access")
          (clock P (2 + ticks w1)) (ACCESS_TOKEN_TTL E) = Ok a ->
        exists w2,
          run P (rotateAndSign P E rt r (Some u)) w1
          = (Ok (refreshedResponse P E a (nextToken P w1) u), w2)
          /\ Response.status (refreshedResponse P E a (nextToken P w1) u)
             = 200
          /\ tokens w2
             = <[nextToken P w1 :=
                   RefreshToken.mk (RefreshToken.userId r) (nextToken P w1)
                     (clock P (1 + ticks w1) + REFRESH_TOKEN_TTL E * 1000)%Z
                     None]>
                 (<[rt := RefreshToken.withRevokedAt (clock P (ticks w1)) r1]>
                    (tokens w1))).
Proof.
  intros Hh Hp Hfind Huse. split.
  2: { intros w1 r1 u a Hfind1 Hu1 Hfresh1 Hsign1.
       destruct (rotateAndSign_unconditional rt a r r1 u w1 Hh Hfind1 Hu1
                   Hfresh1 Hsign1) as (w2 & Hrun & Htokens).
       exists w2. by repeat split. }
  cbn [replicate runAll].
  destruct (POST_consumes request w rt r Hh Hp Hfind Huse)
    as (resp & w1 & -> & Hshape & Hiff & Hrevoked).
  destruct (runAll_refused request rt Hh Hp n w1 Hrevoked) as (w' & ->).
  exists resp, w'. split; [reflexivity |]. repeat split; try done.
  - by apply Hiff.
  - by apply Hiff.
  - unfold cookieCleared. cbn. apply list_elem_of_here.
Qed.
End Sequential.

Lemma sequential_rotations_one_success_witness :
  (exists resp w',
      runAll samplePlatform
        (replicate 3 (POST samplePlatform sampleEnv aliceRequest)) sampleWorld
      = (Ok resp :: replicate 2 (Ok invalidRefreshTokenResponse), w')
      /\ (Response.status resp = 200 \/ resp = refreshFailedResponse))
  /\ (exists w2,
        run samplePlatform
          (rotateAndSign samplePlatform sampleEnv "alice-refresh-token"
             aliceToken (Some alice)) revokedWorld
        = (Ok (refreshedResponse samplePlatform sampleEnv "jwt.u1.1700000900"
                 (nextToken samplePlatform revokedWorld) alice), w2)
        /\ size (tokens w2) = 2).
Proof.
  destruct (sequential_rotations_one_success samplePlatform sampleEnv
              aliceRequest sampleWorld "alice-refresh-token" aliceToken 2)
    as [Hsequential Hresumed].
  - exact samplePlatform_healthy.
  - vm_compute. reflexivity.
  - vm_compute. reflexivity.
  - split; [reflexivity | simpl; lia].
  - split.
    + destruct Hsequential as (resp & w' & Hrun & Hshape & _).
      by exists resp, w'.
    + destruct (Hresumed revokedWorld
                  (RefreshToken.mk "u1" "alice-refresh-token" 1700000001000
                     (Some 1699999999000%Z))
                  alice "jwt.u1.1700000900")
        as (w2 & Hrun & _ & Htokens).
      * vm_compute. reflexivity.
      * by exists alice.
      * vm_compute. reflexivity.
      * vm_compute. reflexivity.
      * exists w2. split; [exact Hrun |]. rewrite Htokens.
        vm_compute. reflexivity.
Defined.

(** C1, as stated, fails for interleaved requests: two calls of [POST] present
    Alice's usable token, the second looks it up before the first has revoked
    it, and both are answered 200; the store ends with two successor rows
    next to the presented one. The revoke is [update where token], whatever
    the row's [revokedAt]. *)
Lemma concurrent_rotations_both_succeed :
  let pool := [POST samplePlatform sampleEnv aliceRequest;
               POST samplePlatform sampleEnv aliceRequest] in
  let out := sched samplePlatform racingSchedule pool sampleWorld in
  tokens sampleWorld !! "alice-refresh-token" = Some aliceToken
  /\ usable (clock samplePlatform (ticks sampleWorld)) aliceToken
  /\ length (List.filter succeeded out.1) = 2
  /\ size (tokens sampleWorld) = 1
  /\ size (tokens out.2) = 3.
Proof.
  repeat split; try (vm_compute; reflexivity).
  simpl. lia.
Qed.

(** ** Revocation *)

Section Revoke.
Context (P : Platform).

Lemma revokeRefreshToken_run (tokenValue : string) (w : World) :
  storeFault P (ops w) = false ->
  exists w',
    run P (revokeRefreshToken tokenValue) w = (Ok tt, w')
    /\ revokeEffect P tokenValue w w'.
Proof.
  intros Hf. unfold revokeRefreshToken, revokeEffect.
  step. step. rewrite Hf.
  destruct (tokens w !! tokenValue) as [r |] eqn:Hfind.
  - eexists. split; [reflexivity |]. normalise_world.
    repeat split.
    + by rewrite lookup_insert_eq.
    + intros k Hk. by rewrite lookup_insert_ne.
  - eexists. split; [reflexivity |]. normalise_world.
    by rewrite Hfind.
Qed.

Lemma DELETE_revokes (request : NextRequest) (tokenValue : string)
    (w : World) :
  storeFault P (ops w) = false ->
  presented P request = Ok (Some tokenValue) ->
  exists w',
    run P (DELETE P request) w = (Ok revokedResponse, w')
    /\ revokeEffect P tokenValue w w'.
Proof.
  intros Hf Hp. unfold DELETE, DELETE_try, revokeEffect.
  rewrite run_tryCatch.
  pose proof (presented_cases P request) as Hp'.
  step.
  destruct (parseCookies P (cookieHeader request)) as [cookies | e];
    [| congruence].
  destruct (cookies !! "refresh-token") as [[| c rest] |]; try congruence.
  rewrite Hp in Hp'. injection Hp' as ->.
  step. step. rewrite Hf.
  destruct (tokens w !! String c rest) as [r |] eqn:Hfind.
  - eexists. split; [reflexivity |]. normalise_world.
    repeat split.
    + by rewrite lookup_insert_eq.
    + intros k Hk. by rewrite lookup_insert_ne.
  - eexists. split; [reflexivity |]. normalise_world.
    by rewrite Hfind.
Qed.

(** C4, as the code has it. When the store answers, revoking a token value
    is never an error, through [revokeRefreshToken] or through [DELETE]:
    an unknown value changes nothing, and a stored row gets the current
    clock reading as [revokedAt] whether or not it was revoked before, so a
    revoked row stays revoked but its timestamp is replaced. *)
Theorem revoke_overwrites (request : NextRequest) (tokenValue : string)
    (w : World) :
  storeFault P (ops w) = false ->
  (exists w',
      run P (revokeRefreshToken tokenValue) w = (Ok tt, w')
      /\ revokeEffect P tokenValue w w')
  /\ (presented P request = Ok (Some tokenValue) ->
      exists w',
        run P (DELETE P request) w = (Ok revokedResponse, w')
        /\ revokeEffect P tokenValue w w').
Proof.
  intros Hf. split.
  - by apply revokeRefreshToken_run.
  - by apply DELETE_revokes.
Qed.
End Revoke.

Lemma revoke_overwrites_witness :
  (exists w',
      run samplePlatform (revokeRefreshToken "alice-refresh-token") revokedWorld
      = (Ok tt, w')
      /\ revokeEffect samplePlatform "alice-refresh-token" revokedWorld w')
  /\ (presented samplePlatform aliceRequest = Ok (Some "alice-refresh-token") ->
      exists w',
        run samplePlatform (DELETE samplePlatform aliceRequest) revokedWorld
        = (Ok revokedResponse, w')
        /\ revokeEffect samplePlatform "alice-refresh-token" revokedWorld w').
Proof.
  apply (revoke_overwrites samplePlatform aliceRequest "alice-refresh-token"
           revokedWorld).
  reflexivity.
Defined.

(** C4, as stated, fails on a token that is already revoked: a further revoke
    replaces its [revokedAt] by the time of the new call. *)
Lemma revoke_again_moves_revokedAt :
  let w' :=
    (run samplePlatform (revokeRefreshToken "alice-refresh-token")
       revokedWorld).2 in
  RefreshToken.revokedAt <$> tokens revokedWorld !! "alice-refresh-token"
  = Some (Some 1699999999000%Z)
  /\ RefreshToken.revokedAt <$> tokens w' !! "alice-refresh-token"
     = Some (Some 1700000000000%Z).
Proof. vm_compute. split; reflexivity. Qed.

(** ** The responses of the token route *)

Section Responses.
Context (P : Platform) (E : ProcessEnv).

Lemma cookieCleared_invalid : cookieCleared invalidRefreshTokenResponse.
Proof. unfold cookieCleared. cbn. apply list_elem_of_here. Qed.

Lemma cookieCleared_failed : cookieCleared refreshFailedResponse.
Proof. unfold cookieCleared. cbn. apply list_elem_of_here. Qed.

Lemma cookieCleared_revoked : cookieCleared revokedResponse.
Proof. unfold cookieCleared. cbn. apply list_elem_of_here. Qed.

(** What [DELETE] answers, case by case. *)
Lemma DELETE_run (request : NextRequest) (w : World) :
  exists w',
    run P (DELETE P request) w
    = (Ok match presented P request with
          | Err _ => revocationFailedResponse
          | Ok None => revokedResponse
          | Ok (Some _) =>
              if storeFault P (ops w) then revocationFailedResponse
              else revokedResponse
          end, w').
Proof.
  pose proof (presented_cases P request) as Hp.
  unfold DELETE, DELETE_try. rewrite run_tryCatch. step.
  destruct (parseCookies P (cookieHeader request)) as [cookies | e].
  2: { rewrite Hp. step. by eexists. }
  destruct (cookies !! "refresh-token") as [[| c rest] |]; rewrite Hp;
    try by eexists.
  step. step.
  destruct (storeFault P (ops w)); [step; by eexists |].
  destruct (tokens w !! String c rest); by eexists.
Qed.

(** C9, as the code has it. [POST] always responds, with the 200 payload
    and the new cookie, with 401 and no Set-Cookie header when no refresh
    token is presented, with 401 and the cookie cleared, or with 500 and
    the cookie cleared. [DELETE] always responds: with 200
    [{success: true}] and the cookie cleared when the cookie header parses
    and either no refresh token is presented or the store answers the
    [updateMany] (whether the token is unknown, revoked or not); with 500
    and no Set-Cookie header when the header does not parse or the store
    fails on the [updateMany] of a presented token. *)
Theorem token_route_responses (request : NextRequest) (w : World) :
  (exists resp w',
      run P (POST P E request) w = (Ok resp, w')
      /\ ((Response.status resp = 200
           /\ exists a n u, resp = refreshedResponse P E a n u)
          \/ (Response.status resp = 401 /\ Response.setCookie resp = []
              /\ presented P request = Ok None)
          \/ (Response.status resp = 401 /\ cookieCleared resp)
          \/ (Response.status resp = 500 /\ cookieCleared resp)))
  /\ (exists w',
        run P (DELETE P request) w
        = (Ok match presented P request with
              | Err _ => revocationFailedResponse
              | Ok None => revokedResponse
              | Ok (Some _) =>
                  if storeFault P (ops w) then revocationFailedResponse
                  else revokedResponse
              end, w'))
  /\ (Response.status revokedResponse = 200
      /\ Response.json revokedResponse = Response.SuccessBody true
      /\ cookieCleared revokedResponse)
  /\ (Response.status revocationFailedResponse = 500
      /\ Response.setCookie revocationFailedResponse = []).
Proof.
  split; [| split; [apply DELETE_run |]].
  - unfold POST. rewrite run_tryCatch.
    destruct (run P (POST_try P E request) w) as [[resp | e] w1] eqn:Hrun.
    + exists resp, w1. split; [done |].
      apply POST_try_Ok_inv in Hrun
        as [(Hp & -> & _) | [(rt & _ & -> & _) | (rt & r & u & a & H)]].
      * right; left. done.
      * right; right; left. split; [done | apply cookieCleared_invalid].
      * left. destruct H as (_ & _ & _ & _ & _ & _ & _ & _ & ->).
        split; [done |]. by exists a, (nextToken P w), u.
    + step. eexists _, _. split; [reflexivity |].
      right; right; right. split; [done | apply cookieCleared_failed].
  - repeat split. apply cookieCleared_revoked.
Qed.
End Responses.

Lemma token_route_responses_witness :
  (run samplePlatform (DELETE samplePlatform aliceRequest) revokedWorld).1
  = Ok revokedResponse
  /\ (run samplePlatform (DELETE samplePlatform bareRequest) sampleWorld).1
     = Ok revokedResponse.
Proof.
  split.
  - destruct (proj1 (proj2 (token_route_responses samplePlatform sampleEnv
                              aliceRequest revokedWorld))) as (w' & Hrun).
    rewrite Hrun. reflexivity.
  - destruct (proj1 (proj2 (token_route_responses samplePlatform sampleEnv
                              bareRequest sampleWorld))) as (w' & Hrun).
    rewrite Hrun. reflexivity.
Defined.

(** C9, as stated, fails on a request without refresh-token cookie: [POST]
    answers 401 and sets no header that would clear the cookie. *)
Lemma POST_without_cookie_clears_nothing :
  exists resp,
    (run samplePlatform (POST samplePlatform sampleEnv bareRequest)
       sampleWorld).1 = Ok resp
    /\ Response.status resp = 401
    /\ Response.setCookie resp = []
    /\ ~ cookieCleared resp.
Proof.
  exists noRefreshTokenResponse. repeat split.
  unfold cookieCleared. cbn. apply not_elem_of_nil.
Qed.

(** ** Credentials *)

Section Authorize.
Context (P : Platform) (E : ProcessEnv).

Lemma authorize_missing (credentials : option Credentials) (w : World) :
  Js.truthyOpt (credentials ≫= cred_email) = false
  \/ Js.truthyOpt (credentials ≫= cred_password) = false ->
  run P (authorize P E credentials) w = (Ok None, w).
Proof.
  unfold authorize.
  destruct (credentials ≫= cred_email) as [[| c email] |];
    destruct (credentials ≫= cred_password) as [[| d password] |];
    cbn; intros [? | ?]; done.
Qed.

(** C5, as the code has it. With both fields filled in and a store that
    answers, [authorize] throws [Error("Email domain not allowed")] for a
    disallowed domain, and resolves to [null] for an unknown email, for a
    user without password hash and for a wrong password alike; nothing else
    is thrown. *)
Theorem authorize_failures (email password : string) (w : World) :
  storeFault P (ops w) = false ->
  email <> "" -> password <> "" ->
  let out := (run P (authorize P E (credentialsOf email password)) w).1 in
  (isEmailAllowed E email = false ->
   out = Err (Error "Email domain not allowed"))
  /\ (isEmailAllowed E email = true ->
      userByEmail w email = None -> out = Ok None)
  /\ (isEmailAllowed E email = true ->
      forall u, userByEmail w email = Some u ->
                Js.truthyOpt (User.passwordHash u) = false ->
                out = Ok None)
  /\ (isEmailAllowed E email = true ->
      forall u h, userByEmail w email = Some u ->
                  User.passwordHash u = Some h ->
                  verifyPassword P password h = false ->
                  out = Ok None)
  /\ (forall e, out = Err e ->
                e = Error "Email domain not allowed"
                /\ isEmailAllowed E email = false).
Proof.
  intros Hf Hemail Hpassword out. subst out.
  unfold authorize, credentialsOf. cbn [mbind option_bind cred_email cred_password].
  destruct email as [| c email]; [done |].
  destruct password as [| d password]; [done |].
  cbn [Js.truthy negb orb].
  destruct (isEmailAllowed E (String c email)) eqn:Hallowed; cbn [negb].
  2: { cbn [run fst]. repeat split; try done; congruence. }
  step. rewrite Hf.
  change (userByEmail (countOp w)) with (userByEmail w).
  destruct (userByEmail w (String c email)) as [u |] eqn:Hu.
  2: { cbn [run fst]. repeat split; done. }
  destruct (User.passwordHash u) as [[| x h] |] eqn:Hhash.
  1, 3: cbn [run fst]; repeat split; try done;
    intros _ u' ? [= <-] ?; congruence.
  destruct (verifyPassword P (String d password) (String x h)) eqn:Hverify;
    cbn [negb run fst].
  - repeat split; try done.
    + intros _ u' [= <-]. rewrite Hhash. done.
    + intros _ u' h' [= <-]. rewrite Hhash. intros [= <-]. congruence.
  - repeat split; done.
Qed.
End Authorize.

Lemma authorize_failures_witness :
  let E := withWhitelist "company.com" sampleEnv in
  let out :=
    (run samplePlatform
       (authorize samplePlatform E (credentialsOf "alice@example.com" "pw"))
       sampleWorld).1 in
  out = Err (Error "Email domain not allowed").
Proof.
  apply (authorize_failures samplePlatform (withWhitelist "company.com" sampleEnv)
           "alice@example.com" "pw" sampleWorld); try done.
Defined.

(** C5, as stated, fails on a disallowed domain: the failure is thrown, not
    returned, and it differs from the [null] that an unknown email gets. *)
Lemma authorize_throws_for_disallowed_domain :
  let E := withWhitelist "company.com" sampleEnv in
  let out email :=
    (run samplePlatform
       (authorize samplePlatform E (credentialsOf email "pw")) sampleWorld).1
  in
  out "alice@example.com" = Err (Error "Email domain not allowed")
  /\ isOk (out "alice@example.com") = false
  /\ out "nobody@company.com" = Ok None
  /\ out "alice@example.com" <> out "nobody@company.com".
Proof. vm_compute. repeat split. discriminate. Qed.

(** ** Signing failures in the [jwt] callback *)

Section Signing.
Context (P : Platform) (E : ProcessEnv).

(** A refused signature is caught and logged; the token is handed on as it
    was. *)
Lemma signAccessToken_fails (token : JWT.t) (w : World) :
  signerFails P E ->
  exists w',
    run P (signAccessToken E token) w = (Ok token, w')
    /\ (Js.truthyOpt (JWT.userId token) = true ->
        w' = logged "Error signing JWT:" (tick w))
    /\ (Js.truthyOpt (JWT.userId token) = false -> w' = w).
Proof.
  intros Hfail. unfold signAccessToken.
  destruct (JWT.userId token) as [[| c uid] |]; cbn [Js.truthyOpt Js.truthy];
    try (by eexists).
  rewrite run_tryCatch. step.
  match goal with
  | |- context [signHS256 P ?s ?c ?n ?t] =>
      pose proof (Hfail c n t) as Hsign;
      destruct (signHS256 P s c n t) as [a | e]; [done |]
  end.
  step. by eexists.
Qed.

(** The refresh block sets the error field only in its own [catch], right
    after logging the failed refresh. *)
Lemma refreshIfDue_error (token : JWT.t) (w : World) :
  exists token' w',
    run P (refreshIfDue E token) w = (Ok token', w')
    /\ JWT.accessToken token' = JWT.accessToken token
    /\ (JWT.error token' = JWT.error token
        \/ (JWT.error token' = Some "RefreshAccessTokenError"
            /\ head (console w') = Some "Error refreshing access token:")).
Proof.
  unfold refreshIfDue.
  destruct (JWT.refreshToken token) as [[| c rt] |] eqn:Hrt;
    try (eexists _, _; split; [reflexivity |]; split; [done | by left]).
  destruct (JWT.refreshTokenExpires token) as [expires |];
    try (eexists _, _; split; [reflexivity |]; split; [done | by left]).
  destruct (expires =? 0)%Z;
    try (eexists _, _; split; [reflexivity |]; split; [done | by left]).
  step.
  destruct (expires <? clock P (ticks w))%Z;
    try (eexists _, _; split; [reflexivity |]; split; [done | by left]).
  rewrite run_tryCatch.
  destruct (run P (refreshAccessToken E token) (tick w))
    as [[token' | e] w1] eqn:Hrun.
  - apply refreshAccessToken_Ok_inv in Hrun
      as (? & ? & ? & ? & _ & _ & _ & _ & _ & _ & _ & _ & _ & ->).
    eexists _, _. split; [reflexivity |]. split; [done | by left].
  - step. eexists _, _. split; [reflexivity |]. split; [done |].
    right. done.
Qed.

(** C8, as the code has it. When the signer throws, the signing block
    hands the token on exactly as it was, with no new access token and no
    change to the error field, after one line on the console; so the [jwt]
    callback is the sign-in block followed by the refresh block on the
    unsigned token. The callback returns unless creating the refresh token
    at sign in throws; the access token it returns is the one it came
    with, and its error field differs from the one it came with only when
    the refresh block has just logged a failed refresh and set
    "RefreshAccessTokenError". *)
Theorem jwt_swallows_signing_failure (token : JWT.t)
    (user : option AuthUser.t) (account trigger : option string)
    (session : option JWT.t) (w : World) :
  signerFails P E ->
  (forall t w0,
      run P (signAccessToken E t) w0
      = (Ok t, if Js.truthyOpt (JWT.userId t)
               then logged "Error signing JWT:" (tick w0) else w0))
  /\ run P (jwt E token user account trigger session) w
     = match run P (signInBlock E token user account) w with
       | (Ok t, w1) =>
           let t0 := sessionUpdate t trigger session in
           run P (refreshIfDue E t0)
             (if Js.truthyOpt (JWT.userId t0)
              then logged "Error signing JWT:" (tick w1) else w1)
       | (Err e, w1) => (Err e, w1)
       end
  /\ match run P (jwt E token user account trigger session) w with
     | (Ok token', w') =>
         exists t w1,
           run P (signInBlock E token user account) w = (Ok t, w1)
           /\ JWT.accessToken token'
              = JWT.accessToken (sessionUpdate t trigger session)
           /\ (JWT.error token'
               = JWT.error (sessionUpdate t trigger session)
               \/ (JWT.error token' = Some "RefreshAccessTokenError"
                   /\ head (console w')
                      = Some "Error refreshing access token:"))
     | (Err e, _) =>
         exists u, user = Some u /\ is_Some account
                   /\ (run P (createRefreshToken E (Some (AuthUser.id u))) w).1
                      = Err e
     end.
Proof.
  intros Hfail.
  assert (Hsigning : forall t w0,
    run P (signAccessToken E t) w0
    = (Ok t, if Js.truthyOpt (JWT.userId t)
             then logged "Error signing JWT:" (tick w0) else w0)).
  { intros t w0.
    destruct (signAccessToken_fails t w0 Hfail) as (w1 & -> & Hyes & Hno).
    destruct (Js.truthyOpt (JWT.userId t)); f_equal; auto. }
  assert (Hblocks :
    run P (jwt E token user account trigger session) w
    = match run P (signInBlock E token user account) w with
      | (Ok t, w1) =>
          let t0 := sessionUpdate t trigger session in
          run P (refreshIfDue E t0)
            (if Js.truthyOpt (JWT.userId t0)
             then logged "Error signing JWT:" (tick w1) else w1)
      | (Err e, w1) => (Err e, w1)
      end).
  { change (jwt E token user account trigger session)
      with (t ← signInBlock E token user account;
            t ← signAccessToken E (sessionUpdate t trigger session);
            refreshIfDue E t).
    rewrite run_bind.
    destruct (run P (signInBlock E token user account) w) as [[t | e] w1];
      [| reflexivity].
    cbv zeta. by rewrite run_bind, Hsigning. }
  split; [exact Hsigning |]. split; [exact Hblocks |].
  rewrite Hblocks.
  destruct (run P (signInBlock E token user account) w)
    as [[t | e] w1] eqn:Hstart.
  - cbv zeta.
    match goal with
    | |- context [run P (refreshIfDue E ?t0) ?w2] =>
        destruct (refreshIfDue_error t0 w2) as (token' & w' & -> & Ha & He)
    end.
    by exists t, w1.
  - unfold signInBlock in Hstart.
    destruct user as [u |]; [destruct account as [acc |] |];
      try discriminate Hstart.
    rewrite run_bind in Hstart. cbn [AuthUser.intoToken JWT.userId] in Hstart.
    destruct (run P (createRefreshToken E (Some (AuthUser.id u))) w)
      as [[v | e'] w2] eqn:Hc.
    + step_in Hstart. discriminate Hstart.
    + injection Hstart as <- <-. exists u. split; [done |].
      split; [by eexists |]. by rewrite Hc.
Qed.
End Signing.

Lemma withoutSigner_signerFails (P : Platform) (E : ProcessEnv) :
  signerFails (withoutSigner P) E.
Proof. intros claims now ttl. reflexivity. Qed.

Lemma jwt_swallows_signing_failure_witness :
  run (withoutSigner samplePlatform)
    (jwt sampleEnv aliceJWT None None None None) sampleWorld
  = match run (withoutSigner samplePlatform)
            (signInBlock sampleEnv aliceJWT None None) sampleWorld with
    | (Ok t, w1) =>
        let t0 := sessionUpdate t None None in
        run (withoutSigner samplePlatform) (refreshIfDue sampleEnv t0)
          (if Js.truthyOpt (JWT.userId t0)
           then logged "Error signing JWT:" (tick w1) else w1)
    | (Err e, w1) => (Err e, w1)
    end.
Proof.
  exact (proj1 (proj2
           (jwt_swallows_signing_failure (withoutSigner samplePlatform)
              sampleEnv aliceJWT None None None None sampleWorld
              (withoutSigner_signerFails samplePlatform sampleEnv)))).
Defined.

(** C8, as stated, fails when signing throws: the callback returns Alice's
    token as it came, without access token and without error field, the
    session built from it carries no error either, and the failure is only
    written to the console. *)
Lemma signing_failure_sets_no_error :
  let P := withoutSigner samplePlatform in
  let out := run P (jwt sampleEnv aliceJWT None None None None) sampleWorld in
  signHS256 P (env_JWT_SECRET sampleEnv)
    (Claims.mk "u1" (Some "alice@example.com") "access")
    (clock P 0) (ACCESS_TOKEN_TTL sampleEnv) = Err JOSEError
  /\ out.1 = Ok aliceJWT
  /\ JWT.error aliceJWT = None
  /\ JWT.accessToken aliceJWT = None
  /\ Session.error (session aliceJWT) = None
  /\ console out.2 = ["Error signing JWT:"].
Proof. vm_compute. repeat split. Qed.

(** * Further properties *)

(** ** Creating a refresh token *)

Section Create.
Context (P : Platform) (E : ProcessEnv).

(** [createRefreshToken] either stores one new, unrevoked row for the given
    user under 128 fresh hexadecimal characters and returns that value, the
    row expiring one TTL after the clock reading, or throws and leaves both
    tables as they were. *)
Theorem createRefreshToken_outcome (owner : option string) (w : World) :
  match run P (createRefreshToken E owner) w with
  | (Ok value, w') =>
      value = nextToken P w
      /\ String.length value = 128
      /\ owner <> None
      /\ tokens w !! value = None
      /\ tokens w' =
         <[value := RefreshToken.mk (default "" owner) value
                      (clock P (ticks w) + REFRESH_TOKEN_TTL E * 1000)%Z None]>
           (tokens w)
      /\ users w' = users w
  | (Err e, w') => tokens w' = tokens w /\ users w' = users w
  end.
Proof.
  rewrite createRefreshToken_run. cbv zeta.
  destruct owner as [uid |]; [| done].
  destruct (storeFault P (ops w)); [done |].
  destruct (tokens w !! nextToken P w) eqn:Hfresh; [done |].
  destruct (userById w uid); [| done].
  repeat split; try done; apply nextToken_shape.
Qed.
End Create.

(** ** The refresh block of the [jwt] callback *)

Section RefreshBlock.
Context (P : Platform) (E : ProcessEnv).

(** The block returns the token as it is, marks it with the refresh error, or
    returns it with a new refresh token. *)
Lemma refreshIfDue_shape (token : JWT.t) (w : World) :
  exists token' w',
    run P (refreshIfDue E token) w = (Ok token', w')
    /\ (token' = token
        \/ token' = JWT.withError "RefreshAccessTokenError" token
        \/ exists value expires, token' = JWT.withRefresh value expires token).
Proof.
  unfold refreshIfDue.
  destruct (JWT.refreshToken token) as [[| c rt] |] eqn:Hrt;
    try (eexists _, _; split; [reflexivity | by left]).
  destruct (JWT.refreshTokenExpires token) as [expires |];
    try (eexists _, _; split; [reflexivity | by left]).
  destruct (expires =? 0)%Z;
    try (eexists _, _; split; [reflexivity | by left]).
  step.
  destruct (expires <? clock P (ticks w))%Z;
    try (eexists _, _; split; [reflexivity | by left]).
  rewrite run_tryCatch.
  destruct (run P (refreshAccessToken E token) (tick w))
    as [[token' | e] w1] eqn:Hrun.
  - apply refreshAccessToken_Ok_inv in Hrun
      as (? & ? & ? & ? & _ & _ & _ & _ & _ & _ & _ & _ & _ & ->).
    eexists _, _. split; [reflexivity |]. right; right. eauto.
  - step. eexists _, _. split; [reflexivity |]. right; left. done.
Qed.

(** A refresh that is due for a row that has expired by then is refused and
    only marks the token. *)
Lemma refreshIfDue_expired_row (token : JWT.t) (w : World)
    (presentedValue : string) (expires : Z) :
  healthy P -> monotoneClock P ->
  JWT.refreshToken token = Some presentedValue ->
  JWT.refreshTokenExpires token = Some expires ->
  (forall r, tokens w !! presentedValue = Some r ->
             (RefreshToken.expiresAt r <= expires)%Z) ->
  exists w',
    run P (refreshIfDue E token) w
    = (Ok (if (negb (expires =? 0)%Z && Js.truthy presentedValue
               && (expires <? clock P (ticks w))%Z)%bool
           then JWT.withError "RefreshAccessTokenError" token
           else token), w')
    /\ tokens w' = tokens w /\ users w' = users w.
Proof.
  intros Hh Hmono Hrt Hexpires Hrow. unfold refreshIfDue.
  rewrite Hrt, Hexpires.
  destruct presentedValue as [| c rt];
    [rewrite andb_false_r; by eexists |].
  destruct (expires =? 0)%Z; [by eexists |].
  cbn [negb Js.truthy andb]. step.
  destruct (expires <? clock P (ticks w))%Z eqn:Hdue; [| by eexists].
  rewrite run_tryCatch.
  destruct (refreshAccessToken_refuses P E token (tick w) (String c rt))
    as (w1 & -> & Htok & Husers & _); try done.
  { intros r Hr [_ Hexp]. normalise_world_in Hr. normalise_world_in Hexp.
    specialize (Hrow r Hr). apply Z.ltb_lt in Hdue.
    pose proof (Hmono (ticks w) (S (ticks w)) (Nat.le_succ_diag_r _)). lia. }
  step. eexists. split; [reflexivity |]. normalise_world. done.
Qed.

(** When the stored row of the JWT's refresh token expires no later than the
    JWT's own [refreshTokenExpires], the block never rotates: it waits until
    [refreshTokenExpires] has passed, and by then the row has expired too.
    The token comes back unchanged, or marked "RefreshAccessTokenError" once
    the refresh is due, and the tables stay as they were. *)
Theorem refreshIfDue_never_rotates (token : JWT.t) (w : World)
    (presentedValue : string) (expires : Z) :
  healthy P -> monotoneClock P ->
  JWT.refreshToken token = Some presentedValue ->
  JWT.refreshTokenExpires token = Some expires ->
  (forall r, tokens w !! presentedValue = Some r ->
             (RefreshToken.expiresAt r <= expires)%Z) ->
  exists w',
    run P (refreshIfDue E token) w
    = (Ok (if (negb (expires =? 0)%Z && Js.truthy presentedValue
               && (expires <? clock P (ticks w))%Z)%bool
           then JWT.withError "RefreshAccessTokenError" token
           else token), w')
    /\ tokens w' = tokens w /\ users w' = users w.
Proof.
  intros Hh Hmono Hrt Hexpires Hrow.
  by apply (refreshIfDue_expired_row token w presentedValue expires).
Qed.
End RefreshBlock.

(** ** The [jwt] callback *)

Section Callback.
Context (P : Platform) (E : ProcessEnv).

(** The signing block returns, with or without a new access token, and
    leaves the tables alone. *)
Lemma signAccessToken_shape (token : JWT.t) (w : World) :
  exists token' w',
    run P (signAccessToken E token) w = (Ok token', w')
    /\ (token' = token \/ exists a, token' = JWT.withAccessToken a token)
    /\ tokens w' = tokens w /\ users w' = users w
    /\ drawn w' = drawn w /\ ops w' = ops w /\ ticks w <= ticks w'.
Proof.
  unfold signAccessToken.
  destruct (JWT.userId token) as [[| c uid] |];
    try (eexists _, _; split; [reflexivity |]; split; [by left | done]).
  rewrite run_tryCatch. step.
  destruct (signHS256 P _ _ _ _) as [a | e].
  - step. eexists _, _. split; [reflexivity |]. split; [right; eauto |].
    normalise_world. repeat split; lia.
  - step. eexists _, _. split; [reflexivity |]. split; [by left |].
    normalise_world. repeat split; lia.
Qed.

Lemma sessionUpdate_other (token : JWT.t) (trigger : option string)
    (session : option JWT.t) :
  trigger <> Some "update" -> sessionUpdate token trigger session = token.
Proof.
  intros Hne. unfold sessionUpdate.
  destruct trigger as [t |]; [| done]. destruct session as [s |]; [| done].
  destruct (String.eqb_spec t "update") as [-> | _]; done.
Qed.

(** Without a sign in, the callback always returns a token: a refused
    signature and a failed refresh are both caught. *)
Theorem jwt_returns (token : JWT.t) (user : option AuthUser.t)
    (account trigger : option string) (session : option JWT.t) (w : World) :
  user = None \/ account = None ->
  exists token' w',
    run P (jwt E token user account trigger session) w = (Ok token', w').
Proof.
  intros Hno. unfold jwt. rewrite run_bind.
  assert (Hfirst :
    run P match user, account with
          | Some u, Some _ =>
              createRefreshToken E (JWT.userId (AuthUser.intoToken u token))
              ≫= (fun refreshTokenValue =>
                    await DateNow
                    ≫= (fun now =>
                          Ret (JWT.withRefresh refreshTokenValue
                                 (now + REFRESH_TOKEN_TTL E * 1000)%Z
                                 (AuthUser.intoToken u token))))
          | _, _ => Ret token
          end w = (Ok token, w)).
  { destruct Hno as [-> | ->]; [done |]. by destruct user. }
  rewrite Hfirst. rewrite run_bind.
  destruct (signAccessToken_shape (sessionUpdate token trigger session) w)
    as (t1 & w1 & -> & _).
  destruct (refreshIfDue_shape P E t1 w1) as (t2 & w2 & -> & _).
  by eexists _, _.
Qed.

(** On a session update, the callback signs the access token for the user id
    of the merged token: a session object that carries a [userId] gets an
    access token for that id, whoever the token belonged to. *)
Theorem jwt_update_signs_session_userId (token s : JWT.t)
    (account : option string) (uid a : string) (w : World) :
  JWT.userId s = Some uid -> uid <> "" ->
  signHS256 P (env_JWT_SECRET E)
    (Claims.mk uid (JWT.over (JWT.email s) (JWT.email token)) "access")
    (clock P (ticks w)) (ACCESS_TOKEN_TTL E) = Ok a ->
  exists token' w',
    run P (jwt E token None account (Some "update") (Some s)) w
    = (Ok token', w')
    /\ JWT.userId token' = Some uid
    /\ JWT.accessToken token' = Some a.
Proof.
  intros Huid Hne Hsign. unfold jwt. rewrite run_bind. cbn [run].
  rewrite run_bind.
  change (sessionUpdate token (Some "update") (Some s))
    with (JWT.assign token s).
  assert (Hsigned :
    run P (signAccessToken E (JWT.assign token s)) w
    = (Ok (JWT.withAccessToken a (JWT.assign token s)), tick w)).
  { unfold signAccessToken. cbn [JWT.assign JWT.userId JWT.email].
    rewrite Huid. cbn [JWT.over]. destruct uid as [| c uid]; [done |].
    rewrite run_tryCatch. step. rewrite Hsign. reflexivity. }
  rewrite Hsigned.
  destruct (refreshIfDue_shape P E
              (JWT.withAccessToken a (JWT.assign token s)) (tick w))
    as (t2 & w2 & -> & Hshape).
  eexists _, _. split; [reflexivity |].
  destruct Hshape as [-> | [-> | (v & e & ->)]];
    cbn [JWT.withAccessToken JWT.withError JWT.withRefresh JWT.assign
         JWT.userId JWT.accessToken]; by rewrite Huid.
Qed.

(** At sign in the callback copies the user into the token, stores a fresh
    refresh token for that user and records its value in the token; the row
    expires no later than the token's [refreshTokenExpires]. *)
Theorem jwt_sign_in (token : JWT.t) (u : AuthUser.t) (usr : User.t)
    (provider : string) (trigger : option string) (session : option JWT.t)
    (w : World) :
  healthy P -> monotoneClock P ->
  trigger <> Some "update" ->
  userById w (AuthUser.id u) = Some usr ->
  tokens w !! nextToken P w = None ->
  exists token' w',
    run P (jwt E token (Some u) (Some provider) trigger session) w
    = (Ok token', w')
    /\ JWT.userId token' = Some (AuthUser.id u)
    /\ JWT.email token' = Some (AuthUser.email u)
    /\ JWT.refreshToken token' = Some (nextToken P w)
    /\ JWT.refreshTokenExpires token'
       = Some (clock P (S (ticks w)) + REFRESH_TOKEN_TTL E * 1000)%Z
    /\ tokens w' =
       <[nextToken P w :=
           RefreshToken.mk (AuthUser.id u) (nextToken P w)
             (clock P (ticks w) + REFRESH_TOKEN_TTL E * 1000)%Z None]>
         (tokens w)
    /\ users w' = users w.
Proof.
  intros Hh Hmono Htrigger Hu Hfresh. unfold jwt.
  rewrite run_bind, run_bind, createRefreshToken_run.
  cbn [AuthUser.intoToken JWT.userId]. rewrite Hh, Hfresh, Hu. cbv zeta.
  step. rewrite run_bind.
  rewrite sessionUpdate_other by done.
  match goal with
  | |- context [run P (signAccessToken E ?t) ?w0] =>
      destruct (signAccessToken_shape t w0)
        as (t1 & w1 & -> & Ht1 & Htok & Husers & _ & _ & Hticks)
  end.
  normalise_world_in Htok. normalise_world_in Husers.
  normalise_world_in Hticks.
  destruct (refreshIfDue_expired_row P E t1 w1 (nextToken P w)
              (clock P (S (ticks w)) + REFRESH_TOKEN_TTL E * 1000)%Z)
    as (w2 & -> & Htok2 & Husers2); try done.
  { by destruct Ht1 as [-> | (a & ->)]. }
  { by destruct Ht1 as [-> | (a & ->)]. }
  { intros r. rewrite Htok, lookup_insert_eq. intros [= <-]. cbn.
    pose proof (Hmono (ticks w) (S (ticks w)) (Nat.le_succ_diag_r _)). lia. }
  eexists _, _. split; [reflexivity |].
  rewrite Htok2, Husers2, Htok, Husers.
  destruct (negb _ && _ && _)%bool;
    destruct Ht1 as [-> | (a & ->)]; repeat split.
Qed.
End Callback.

(** ** More on the token route *)

Section Route.
Context (P : Platform) (E : ProcessEnv).

(** When the signer refuses after the rotation has been written, [POST]
    answers 500 and clears the cookie: the presented token is revoked and its
    successor is stored, but the successor is handed to nobody. *)
Theorem POST_signing_failure (request : NextRequest) (w : World)
    (rt : string) (r : RefreshToken.t) (u : User.t) (e : Exn) :
  healthy P ->
  presented P request = Ok (Some rt) ->
  tokens w !! rt = Some r ->
  usable (clock P (ticks w)) r ->
  userById w (RefreshToken.userId r) = Some u ->
  tokens w !! nextToken P w = None ->
  signHS256 P (env_JWT_SECRET E)
    (Claims.mk (RefreshToken.userId r) (Some (User.email u)) "access")
    (clock P (3 + ticks w)) (ACCESS_TOKEN_TTL E) = Err e ->
  run P (POST P E request) w =
    (Ok refreshFailedResponse,
     logged "Token refresh error:"
       (afterRotation P E rt r (RefreshToken.userId r) w)).
Proof.
  intros Hh Hp Hfind [Hrev Hexp] Hu Hfresh Hsign.
  unfold POST, POST_try. rewrite run_tryCatch.
  pose proof (presented_cases P request) as Hp'.
  step.
  destruct (parseCookies P (cookieHeader request)) as [cookies | e0];
    [| congruence].
  destruct (cookies !! "refresh-token") as [[| c rest] |]; try congruence.
  rewrite Hp in Hp'. injection Hp' as ->.
  step. rewrite Hh, Hfind. cbn [fmap option_fmap option_map].
  rewrite Hrev. step. apply Z.ltb_ge in Hexp. rewrite Hexp.
  unfold rotateAndSign. step. step. rewrite Hh, Hfind.
  step. step. step. unfold userById in *. normalise_world.
  fold (nextToken P w).
  rewrite Hh, lookup_insert_ne, Hfresh, Hu by congruence.
  cbn [Nat.add] in Hsign.
  step. step. rewrite Hsign. step. reflexivity.
Qed.

(** A cookie header that does not parse, whichever cookie is at fault, gets
    500 from both handlers; [POST] clears the refresh cookie, [DELETE] sets
    no header, and the store is not even asked. *)
Theorem unparsable_cookie_header (request : NextRequest) (w : World)
    (e : Exn) :
  parseCookies P (cookieHeader request) = Err e ->
  run P (POST P E request) w
  = (Ok refreshFailedResponse, logged "Token refresh error:" w)
  /\ run P (DELETE P request) w
     = (Ok revocationFailedResponse, logged "Token revocation error:" w).
Proof.
  intros Hparse. unfold POST, POST_try, DELETE, DELETE_try.
  rewrite !run_tryCatch. step. rewrite Hparse. step. done.
Qed.

(** After a logout through [DELETE], the same cookie is refused by [POST]. *)
Theorem DELETE_then_POST (request : NextRequest) (w : World) (rt : string) :
  healthy P ->
  presented P request = Ok (Some rt) ->
  (run P (POST P E request) (run P (DELETE P request) w).2).1
  = Ok invalidRefreshTokenResponse.
Proof.
  intros Hh Hp.
  destruct (DELETE_revokes P request rt w (Hh _) Hp)
    as (w1 & -> & _ & Hrow & _).
  cbn [snd].
  destruct (POST_refuses P E request w1 rt Hh Hp) as (w2 & -> & _); [| done].
  intros r Hr [Hrev _]. rewrite Hrow in Hr.
  destruct (tokens w !! rt) as [r0 |]; [| done].
  by injection Hr as <-.
Qed.

(** After [signOut], the token's refresh token is refused by
    [refreshAccessToken]. *)
Theorem signOut_then_refresh (token : JWT.t) (w : World) (rt : string) :
  healthy P ->
  JWT.refreshToken token = Some rt -> rt <> "" ->
  (run P (refreshAccessToken E token) (run P (signOut (Some token)) w).2).1
  = Err invalidRefreshToken.
Proof.
  intros Hh Hrt Hne. unfold signOut. cbn [mbind option_bind]. rewrite Hrt.
  destruct rt as [| c rt]; [done |].
  destruct (revokeRefreshToken_run P (String c rt) w (Hh _))
    as (w1 & -> & _ & Hrow & _).
  cbn [snd].
  destruct (refreshAccessToken_refuses P E token w1 (String c rt))
    as (w2 & -> & _); try done.
  intros r Hr [Hrev _]. rewrite Hrow in Hr.
  destruct (tokens w !! String c rt) as [r0 |]; [| done].
  by injection Hr as <-.
Qed.

(** The successor of a rotation can be rotated in turn: a second
    [refreshAccessToken], on the token the first one returned, succeeds as
    long as the clock has not passed the new expiry and the next random value
    is fresh. *)
Theorem rotation_chain (token token1 : JWT.t) (w w1 : World) :
  healthy P ->
  run P (refreshAccessToken E token) w = (Ok token1, w1) ->
  (clock P (4 + ticks w)
   <= clock P (2 + ticks w) + REFRESH_TOKEN_TTL E * 1000)%Z ->
  tokens w1 !! nextToken P w1 = None ->
  exists token2 w2,
    run P (refreshAccessToken E token1) w1 = (Ok token2, w2)
    /\ JWT.refreshToken token2 = Some (nextToken P w1)
    /\ JWT.userId token2 = JWT.userId token.
Proof.
  intros Hh Hrun Hclock Hfresh.
  apply refreshAccessToken_Ok_inv in Hrun
    as (rt & r & owner & u & Hrt & _ & Hfind & _ & Huid & Hu & _ & _ & -> & ->).
  assert (Hsecond :
    run P (refreshAccessToken E
             (JWT.withRefresh (nextToken P w)
                (clock P (3 + ticks w) + REFRESH_TOKEN_TTL E * 1000)%Z token))
      (afterRotation P E rt r owner w)
    = (Ok (JWT.withRefresh
             (nextToken P (afterRotation P E rt r owner w))
             (clock P (3 + ticks (afterRotation P E rt r owner w))
              + REFRESH_TOKEN_TTL E * 1000)%Z
             (JWT.withRefresh (nextToken P w)
                (clock P (3 + ticks w) + REFRESH_TOKEN_TTL E * 1000)%Z token)),
       afterRotation P E (nextToken P w)
         (RefreshToken.mk owner (nextToken P w)
            (clock P (2 + ticks w) + REFRESH_TOKEN_TTL E * 1000)%Z None)
         owner (afterRotation P E rt r owner w)));
    [| rewrite Hsecond; eexists _, _; split; [reflexivity | by split]].
  apply (refreshAccessToken_Ok_intro P E _ _ (nextToken P w) owner
           (RefreshToken.mk owner (nextToken P w)
              (clock P (2 + ticks w) + REFRESH_TOKEN_TTL E * 1000)%Z None) u).
  - exact Hh.
  - reflexivity.
  - pose proof (nextToken_shape P w) as [Hlen _].
    intros Heq. rewrite Heq in Hlen. discriminate Hlen.
  - apply afterRotation_successor.
  - split; [reflexivity | exact Hclock].
  - exact Huid.
  - exact Hu.
  - exact Hfresh.
Qed.
End Route.

(** ** Signing in with a password *)

Section SignIn.
Context (P : Platform) (E : ProcessEnv).

Lemma hashPassword_run (password : string) (w : World) :
  run P (hashPassword P password) w
  = (Ok (saltOf P w +:+ ":"
           +:+ toHex (scrypt P password (saltOf P w) 64)), draw 16 w).
Proof. reflexivity. Qed.

(** A user whose stored hash came from [hashPassword] signs in with that
    password, if it is not empty; any other candidate signs in exactly when
    it derives the same 64-byte key with the stored salt, and gets [null]
    otherwise. *)
Theorem authorize_after_hashPassword (u : User.t)
    (password candidate hash : string) (w0 w1 w : World) :
  storeFault P (ops w) = false ->
  User.email u <> "" -> candidate <> "" ->
  isEmailAllowed E (User.email u) = true ->
  userByEmail w (User.email u) = Some u ->
  run P (hashPassword P password) w0 = (Ok hash, w1) ->
  User.passwordHash u = Some hash ->
  let out :=
    (run P (authorize P E (credentialsOf (User.email u) candidate)) w).1 in
  (candidate = password -> out = Ok (Some (AuthUser.ofUser u)))
  /\ (out = Ok (Some (AuthUser.ofUser u)) \/ out = Ok None)
  /\ (out = Ok (Some (AuthUser.ofUser u))
      <-> scrypt P candidate (saltOf P w0) 64
          = scrypt P password (saltOf P w0) 64).
Proof.
  intros Hf Hemail Hcand Hallowed Hu Hrun Hh out. subst out.
  rewrite hashPassword_run in Hrun. injection Hrun as <- <-.
  pose proof (toHex_no_colon (map (entropy P) (seq (drawn w0) 16))) as Hsalt.
  fold (saltOf P w0) in Hsalt.
  generalize dependent (saltOf P w0). intros salt Hh Hsalt.
  unfold authorize, credentialsOf.
  cbn [mbind option_bind cred_email cred_password].
  destruct (User.email u) as [| c email] eqn:He; [done |].
  destruct candidate as [| d candidate]; [done |].
  cbn [Js.truthy negb orb]. rewrite Hallowed. cbn [negb].
  step. rewrite Hf. change (userByEmail (countOp w)) with (userByEmail w).
  rewrite Hu, Hh.
  assert (Hverify :
    verifyPassword P (String d candidate)
      (salt +:+ ":" +:+ toHex (scrypt P password salt 64)) = true
    <-> scrypt P (String d candidate) salt 64 = scrypt P password salt 64).
  { rewrite verifyPassword_two_pieces by (done || apply toHex_no_colon).
    split; [intros Heq; symmetry; by apply toHex_inj | by intros ->]. }
  destruct (salt +:+ ":" +:+ toHex (scrypt P password salt 64))
    as [| x h] eqn:Hstored.
  { by destruct salt. }
  destruct (verifyPassword P (String d candidate) (String x h)) eqn:Hv;
    cbn [negb run fst].
  - assert (Hkey := proj1 Hverify eq_refl).
    split; [done |]. split; [by left |]. done.
  - split.
    { intros <-. exfalso. assert (Htrue := proj2 Hverify eq_refl).
      congruence. }
    split; [by right |]. split; [done |].
    intros Hkey. apply Hverify in Hkey. congruence.
Qed.

(** No sign in with an address outside the whitelist gets through: with the
    credentials provider [authorize] never resolves to a user, and with any
    other provider [signIn] answers false. *)
Theorem whitelist_on_every_path (email password provider : string)
    (w : World) :
  email <> "" ->
  isEmailAllowed E email = false ->
  (forall u,
      (run P (authorize P E (credentialsOf email password)) w).1
      <> Ok (Some u))
  /\ (provider <> "credentials" ->
      signIn E (Some email) (Some provider) = false).
Proof.
  intros Hemail Hdenied. split.
  - intros u. unfold authorize, credentialsOf.
    cbn [mbind option_bind cred_email cred_password].
    destruct email as [| c email]; [done |].
    destruct password as [| d password]; [done |].
    cbn [Js.truthy negb orb]. by rewrite Hdenied.
  - intros Hprovider. unfold signIn.
    destruct email as [| c email]; [done |].
    rewrite bool_decide_eq_false_2 by congruence.
    cbn [negb andb Js.truthy]. done.
Qed.
End SignIn.

(** ** Strings: pieces, white space *)

Lemma split_prefix (sep : ascii) (pad s : string) :
  allChars (isNot sep) pad = true ->
  Js.split sep (pad +:+ s)
  = match Js.split sep s with
    | piece :: pieces => (pad +:+ piece) :: pieces
    | [] => [pad]
    end.
Proof.
  intros Hpad. induction pad as [| c pad IH].
  - change ("" +:+ s) with s.
    by destruct (split_cons sep s) as (piece & pieces & ->).
  - change (String c pad +:+ s) with (String c (pad +:+ s)).
    cbn [allChars] in Hpad. apply andb_true_iff in Hpad as [Hc Hpad].
    unfold isNot in Hc. apply negb_true_iff in Hc.
    cbn [Js.split]. rewrite Hc, (IH Hpad).
    destruct (split_cons sep s) as (piece & pieces & ->). done.
Qed.

(** Pieces joined by the separator and some padding split back into the
    pieces, each but the first still carrying the padding. *)
Lemma split_concat (sep : ascii) (pad piece : string) (pieces : list string) :
  allChars (isNot sep) pad = true ->
  Forall (fun p => allChars (isNot sep) p = true) (piece :: pieces) ->
  Js.split sep (String.concat (String sep pad) (piece :: pieces))
  = piece :: map (String.append pad) pieces.
Proof.
  intros Hpad. revert piece.
  induction pieces as [| q pieces IH]; intros piece Hall.
  - cbn. apply split_without. by inversion Hall.
  - inversion Hall as [| ? ? Hp Hrest]; subst.
    change (String.concat (String sep pad) (piece :: q :: pieces))
      with (piece +:+ String sep
              (pad +:+ String.concat (String sep pad) (q :: pieces))).
    rewrite (split_app _ _ _ Hp), (split_prefix _ _ _ Hpad), (IH q Hrest).
    done.
Qed.

Lemma allChars_rev_app (p : ascii -> bool) (a b : string) :
  allChars p (String.rev_app a b) = allChars p a && allChars p b.
Proof.
  revert b. induction a as [| c a IH]; intros b; cbn [String.rev_app allChars];
    [done |].
  rewrite IH. cbn [allChars]. by destruct (p c), (allChars p a).
Qed.

Lemma rev_app_rev_app (a b c : string) :
  String.rev_app (String.rev_app a b) c = String.rev_app b (a +:+ c).
Proof.
  revert b c. induction a as [| x a IH]; intros b c; cbn; [done |].
  by rewrite IH.
Qed.

Lemma rev_involutive (s : string) : String.rev (String.rev s) = s.
Proof.
  unfold String.rev. rewrite rev_app_rev_app. cbn [String.rev_app].
  induction s as [| c s IH]; [done |].
  change (String c s +:+ "") with (String c (s +:+ "")). by rewrite IH.
Qed.

Lemma trimStart_notWhite (s : string) :
  allChars notWhite s = true -> Js.trimStart s = s.
Proof.
  destruct s as [| c s]; [done |]. cbn [allChars Js.trimStart]. unfold notWhite.
  intros [Hc _]%andb_true_iff. apply negb_true_iff in Hc. by rewrite Hc.
Qed.

(** [trim] leaves a string without white space as it is. *)
Lemma trim_notWhite (s : string) :
  allChars notWhite s = true -> Js.trim s = s.
Proof.
  intros Hs. unfold Js.trim. rewrite (trimStart_notWhite s Hs).
  rewrite trimStart_notWhite, rev_involutive; [done |].
  unfold String.rev. by rewrite allChars_rev_app, Hs.
Qed.

(** [trim] drops leading white space. *)
Lemma trim_padding (pad s : string) :
  allChars Js.isWhite pad = true -> Js.trim (pad +:+ s) = Js.trim s.
Proof.
  intros Hpad. unfold Js.trim. f_equal. f_equal. f_equal.
  induction pad as [| c pad IH]; [done |].
  cbn [allChars] in Hpad. apply andb_true_iff in Hpad as [Hc Hpad].
  change (String c pad +:+ s) with (String c (pad +:+ s)).
  cbn [Js.trimStart]. rewrite Hc. by apply IH.
Qed.

Lemma white_is_not (sep : ascii) (pad : string) :
  Js.isWhite sep = false ->
  allChars Js.isWhite pad = true -> allChars (isNot sep) pad = true.
Proof.
  intros Hsep. apply allChars_impl. intros c Hc. unfold isNot.
  destruct (Ascii.eqb_spec c sep) as [-> | _]; [congruence | done].
Qed.

Lemma allChars_app (p : ascii -> bool) (a b : string) :
  allChars p (a +:+ b) = allChars p a && allChars p b.
Proof.
  induction a as [| c a IH]; [done |].
  change (String c a +:+ b) with (String c (a +:+ b)). cbn [allChars].
  rewrite IH. by destruct (p c).
Qed.

(** ** Cookies *)

Lemma printable_notWhite (c : ascii) :
  printable c = true -> notWhite c = true.
Proof.
  destruct c as [[] [] [] [] [] [] [] []]; vm_compute; congruence.
Qed.

Lemma cookieChar_parts (c : ascii) :
  cookieChar c = true ->
  notWhite c = true /\ isNot ";" c = true /\ isNot "=" c = true.
Proof.
  unfold cookieChar. intros [[? ?]%andb_true_iff ?]%andb_true_iff.
  auto using printable_notWhite.
Qed.

Lemma cookiePair_chars (q : ascii -> bool) (c : string * string) :
  (forall x, cookieChar x = true -> q x = true) ->
  q "="%char = true ->
  cookieText c.1 -> cookieText c.2 ->
  allChars q (cookiePair c) = true.
Proof.
  intros Hq Heq [_ H1] [_ H2]. unfold cookiePair.
  rewrite !allChars_app. cbn [allChars]. rewrite Heq.
  by rewrite (allChars_impl _ _ _ Hq H1), (allChars_impl _ _ _ Hq H2).
Qed.

Section Cookies.
Context (P : Platform).

Lemma parseCookie_pair (m : gmap string string) (pad value : string)
    (c : string * string) :
  allChars Js.isWhite pad = true ->
  cookieText c.1 -> cookieText c.2 ->
  decodeURIComponent P c.2 = Ok value ->
  parseCookie P (Ok m) (pad +:+ cookiePair c) = Ok (<[c.1 := value]> m).
Proof.
  intros Hpad Hname Hvalue Hdecode. unfold parseCookie.
  rewrite (trim_padding _ _ Hpad), trim_notWhite.
  2: { apply cookiePair_chars; try done.
       intros x Hx. by apply cookieChar_parts in Hx as (? & _). }
  destruct Hname as [Hn1 Hn2]. destruct Hvalue as [Hv1 Hv2].
  unfold cookiePair.
  change (c.1 +:+ "=" +:+ c.2) with (c.1 +:+ String "=" c.2).
  rewrite split_app, split_without.
  2: { eapply allChars_impl; [| exact Hv2].
       intros x Hx. by apply cookieChar_parts in Hx as (_ & _ & ?). }
  2: { eapply allChars_impl; [| exact Hn2].
       intros x Hx. by apply cookieChar_parts in Hx as (_ & _ & ?). }
  cbn [head lookup list_lookup].
  destruct c.1 as [| x n]; [done |]. destruct c.2 as [| y v]; [done |].
  cbn [Js.truthy andb]. by rewrite Hdecode.
Qed.

Lemma foldl_parseCookie (decode : string -> string) (pad : string)
    (cookies : list (string * string)) (m : gmap string string) :
  allChars Js.isWhite pad = true ->
  Forall (fun c => cookieText c.1 /\ cookieText c.2
                   /\ decodeURIComponent P c.2 = Ok (decode c.2)) cookies ->
  foldl (parseCookie P) (Ok m)
    (map (fun c => pad +:+ cookiePair c) cookies)
  = Ok (foldl (fun m c => <[c.1 := decode c.2]> m) m cookies).
Proof.
  intros Hpad Hall. revert m.
  induction Hall as [| c cookies (Hn & Hv & Hd) _ IH]; intros m; [done |].
  cbn [map foldl]. rewrite (parseCookie_pair m pad (decode c.2) c); try done.
Qed.

(** [parseCookies] reads back a header of [name=value] pairs joined by "; ":
    each value is decoded and stored under its name, a later pair replacing
    an earlier one of the same name; the empty header gives no cookie.
    Names and values are visible ASCII without [;] and [=], and no name is
    ["__proto__"], which an assignment does not store. *)
Theorem parseCookies_header (decode : string -> string)
    (cookies : list (string * string)) :
  Forall (fun c => cookieText c.1 /\ cookieText c.2
                   /\ decodeURIComponent P c.2 = Ok (decode c.2)) cookies ->
  Forall (fun c => ownKey c.1) cookies ->
  parseCookies P (Some (cookieHeaderOf cookies))
  = Ok (foldl (fun m c => <[c.1 := decode c.2]> m) ∅ cookies).
Proof.
  intros Hall _. destruct cookies as [| c cookies]; [done |].
  inversion Hall as [| ? ? (Hn & Hv & Hd) Hrest]; subst.
  assert (Hsplit :
    Js.split ";" (cookieHeaderOf (c :: cookies))
    = cookiePair c :: map (fun c => " " +:+ cookiePair c) cookies).
  { unfold cookieHeaderOf. cbn [map].
    rewrite (split_concat ";" " " (cookiePair c) (map cookiePair cookies)).
    - by rewrite map_map.
    - done.
    - change (cookiePair c :: map cookiePair cookies)
        with (map cookiePair (c :: cookies)).
      apply List.Forall_map.
      eapply Forall_impl; [exact Hall |].
      intros c' (Hn' & Hv' & _). cbn. apply cookiePair_chars; try done.
      intros x Hx. by apply cookieChar_parts in Hx as (_ & ? & _). }
  unfold parseCookies.
  destruct (cookieHeaderOf (c :: cookies)) as [| x header] eqn:Hheader.
  { exfalso. cbn [Js.split] in Hsplit. injection Hsplit as Hpair _.
    unfold cookiePair in Hpair. destruct Hn as [Hn _].
    destruct c.1; [done | discriminate Hpair]. }
  rewrite Hsplit. cbn [foldl].
  rewrite (parseCookie_pair ∅ "" (decode c.2) c); try done.
  by apply (foldl_parseCookie decode " ").
Qed.
End Cookies.

(** ** The configured whitelist *)

Lemma domainChar_parts (c : ascii) :
  domainChar c = true -> notWhite c = true /\ isNot "," c = true.
Proof.
  unfold domainChar. intros [? ?]%andb_true_iff.
  auto using printable_notWhite.
Qed.

Section Domains.
Context (E : ProcessEnv).

(** A whitelist written as entries separated by commas, with or without
    white space after each comma, is read as exactly those entries, in their
    order and as they are written; the empty variable gives the empty
    whitelist. *)
Theorem ALLOWED_DOMAINS_configured (pad : string) (domains : list string) :
  allChars Js.isWhite pad = true ->
  Forall domainText domains ->
  env_ALLOWED_DOMAINS E = Some (String.concat (String "," pad) domains) ->
  ALLOWED_DOMAINS E = domains.
Proof.
  intros Hpad Hall Henv. unfold ALLOWED_DOMAINS. rewrite Henv.
  cbn [default from_option id]. destruct domains as [| d domains]; [done |].
  rewrite split_concat.
  - change (d :: map (String.append pad) domains)
      with (map (String.append "") [d] ++ map (String.append pad) domains)%list.
    assert (Htrim : forall pad' ds,
      allChars Js.isWhite pad' = true -> Forall domainText ds ->
      List.filter Js.truthy (map Js.trim (map (String.append pad') ds)) = ds).
    { intros pad' ds Hpad' Hds.
      induction Hds as [| x ds [Hx1 Hx2] _ IH]; [done |].
      cbn [map List.filter]. rewrite trim_padding, trim_notWhite, IH; try done.
      - by destruct x.
      - eapply allChars_impl; [| exact Hx2].
        intros c Hc. by apply domainChar_parts in Hc as [? _]. }
    rewrite map_app, List.filter_app.
    inversion Hall as [| ? ? Hd Hrest]; subst.
    rewrite (Htrim "" [d]), (Htrim pad domains); try done.
    by constructor.
  - by apply white_is_not.
  - eapply Forall_impl; [exact Hall |]. intros x [_ Hx].
    eapply allChars_impl; [| exact Hx].
    intros c Hc. by apply domainChar_parts in Hc as [_ ?].
Qed.

(** No entry of the whitelist is empty. *)
Lemma ALLOWED_DOMAINS_entries (d : string) : d ∈ ALLOWED_DOMAINS E -> d <> "".
Proof.
  unfold ALLOWED_DOMAINS. intros Hd%list_elem_of_In%filter_In.
  destruct Hd as [_ Hd]. by destruct d.
Qed.

(** With a whitelist configured, an address [local@domain] is accepted
    exactly when the lower-cased domain is one of the entries, and an address
    without [@] is refused. *)
Theorem isEmailAllowed_address (local domain : string) :
  ALLOWED_DOMAINS E <> [] ->
  allChars (isNot "@") local = true ->
  allChars (isNot "@") domain = true ->
  (isEmailAllowed E (local +:+ "@" +:+ domain) = true
   <-> Js.toLowerCase domain ∈ ALLOWED_DOMAINS E)
  /\ isEmailAllowed E local = false.
Proof.
  intros Hlist Hlocal Hdomain. split.
  - rewrite isEmailAllowed_spec. unfold domainOf.
    change (local +:+ "@" +:+ domain) with (local +:+ String "@" domain).
    rewrite (split_app _ _ _ Hlocal), (split_without _ _ Hdomain).
    cbn [lookup list_lookup]. split.
    + intros [? | (d & [= <-] & Hd)]; done.
    + intros Hd. right. eauto.
  - apply not_true_is_false. rewrite isEmailAllowed_spec. unfold domainOf.
    rewrite (split_without _ _ Hlocal). cbn [lookup list_lookup].
    intros [? | (d & ? & _)]; done.
Qed.

(** Whenever a configured whitelist accepts an address, [extractDomain]
    returns the entry that matched. *)
Theorem extractDomain_of_allowed (email : string) :
  ALLOWED_DOMAINS E <> [] ->
  isEmailAllowed E email = true ->
  exists d, extractDomain email = Some d /\ d ∈ ALLOWED_DOMAINS E.
Proof.
  intros Hlist [? | (d & Hd & Hin)]%isEmailAllowed_spec; [done |].
  exists (Js.toLowerCase d). split; [| done].
  unfold extractDomain. unfold domainOf in Hd. rewrite Hd.
  cbn [fmap option_fmap option_map].
  pose proof (ALLOWED_DOMAINS_entries _ Hin) as Hne.
  by destruct (Js.toLowerCase d).
Qed.
End Domains.

(** ** Stored hashes that [hashPassword] did not write *)

Section StoredHashes.
Context (P : Platform).

(** A stored value without colon verifies no password; pieces after a second
    colon are not looked at. *)
Theorem verifyPassword_pieces (password salt key rest : string) :
  allChars (isNot ":") salt = true ->
  allChars (isNot ":") key = true ->
  verifyPassword P password salt = false
  /\ verifyPassword P password (salt +:+ ":" +:+ key +:+ ":" +:+ rest)
     = verifyPassword P password (salt +:+ ":" +:+ key).
Proof.
  intros Hsalt Hkey. unfold verifyPassword. split.
  - by rewrite (split_without _ _ Hsalt).
  - change (salt +:+ ":" +:+ key +:+ ":" +:+ rest)
      with (salt +:+ String ":" (key +:+ String ":" rest)).
    change (salt +:+ ":" +:+ key) with (salt +:+ String ":" key).
    rewrite !(split_app _ _ _ Hsalt), (split_app _ _ _ Hkey),
      (split_without _ _ Hkey).
    done.
Qed.

End StoredHashes.

(** ** From [Set-Cookie] back to the request *)

Section CookieRoundTrip.
Context (P : Platform) (E : ProcessEnv).

(** The cookie [setAuthCookie] writes starts with [name=encoded value]; a
    request that sends this pair back presents the value that was set,
    provided the encoding has no white space, [;] or [=] and decodes to the
    value. *)
Theorem setAuthCookie_presented (value : string) (maxAge : Z) :
  value <> "" ->
  cookieText (encodeURIComponent P value) ->
  decodeURIComponent P (encodeURIComponent P value) = Ok value ->
  let pair := "refresh-token=" +:+ encodeURIComponent P value in
  (exists attributes,
      setAuthCookie P E "refresh-token" value maxAge noOptions
      = pair +:+ "; " +:+ attributes)
  /\ presented P {| cookieHeader := Some pair |} = Ok (Some value).
Proof.
  intros Hvalue Hencoded Hdecode pair. split.
  - eexists. unfold setAuthCookie. subst pair. reflexivity.
  - assert (Hparse :
      parseCookies P (Some pair)
      = Ok (<["refresh-token" := value]> (∅ : gmap string string))).
    { assert (Hname : cookieText "refresh-token")
        by (split; [discriminate | reflexivity]).
      pose proof (parseCookie_pair P ∅ "" value
                    ("refresh-token", encodeURIComponent P value)
                    eq_refl Hname Hencoded Hdecode) as Hpair.
      unfold parseCookies. subst pair.
      change ("refresh-token=" +:+ encodeURIComponent P value)
        with (String "r" ("efresh-token=" +:+ encodeURIComponent P value)).
      rewrite split_without.
      - exact Hpair.
      - change (String "r" ("efresh-token=" +:+ encodeURIComponent P value))
          with (cookiePair ("refresh-token", encodeURIComponent P value)).
        apply cookiePair_chars; try done.
        intros x Hx. by apply cookieChar_parts in Hx as (_ & ? & _). }
    unfold presented. cbn [cookieHeader]. rewrite Hparse.
    rewrite lookup_insert_eq. by destruct value.
Qed.
End CookieRoundTrip.

(** ** A rotation that fails half way *)

Section HalfRotation.
Context (P : Platform) (E : ProcessEnv).

(** The rotation is not atomic: when [refreshAccessToken] throws after its
    check has accepted the presented token (so the successor could not be
    created), the presented row stays revoked, no other row changes, and
    the same JWT is refused from then on. *)
Theorem failed_rotation_consumes_the_token (token : JWT.t) (w : World)
    (presentedValue : string) (r : RefreshToken.t) (e : Exn) :
  healthy P ->
  JWT.refreshToken token = Some presentedValue -> presentedValue <> "" ->
  tokens w !! presentedValue = Some r ->
  usable (clock P (ticks w)) r ->
  (run P (refreshAccessToken E token) w).1 = Err e ->
  tokens (run P (refreshAccessToken E token) w).2
  = <[presentedValue :=
        RefreshToken.withRevokedAt (clock P (S (ticks w))) r]> (tokens w)
  /\ (run P (refreshAccessToken E token)
        (run P (refreshAccessToken E token) w).2).1
     = Err invalidRefreshToken.
Proof.
  intros Hh Hrt Hne Hfind [Hrev Hexp] Hfail.
  assert (Htokens :
    tokens (run P (refreshAccessToken E token) w).2
    = <[presentedValue :=
          RefreshToken.withRevokedAt (clock P (S (ticks w))) r]> (tokens w)).
  { revert Hfail. unfold refreshAccessToken. rewrite Hrt.
    destruct presentedValue as [| c rt]; [done |].
    step. rewrite Hh, Hfind, Hrev.
    step. apply Z.ltb_ge in Hexp. rewrite Hexp.
    step. step. rewrite Hh, Hfind. rewrite run_bind.
    rewrite createRefreshToken_run. cbv zeta. normalise_world.
    destruct (JWT.userId token) as [uid |]; [| done].
    rewrite Hh.
    destruct (_ !! nextToken P _); [done |].
    destruct (userById _ uid); [| done].
    step. done. }
  split; [done |].
  destruct (refreshAccessToken_refuses P E token
              (run P (refreshAccessToken E token) w).2 presentedValue)
    as (w2 & -> & _); try done.
  intros r' Hr' [Hrev' _]. rewrite Htokens, lookup_insert_eq in Hr'.
  injection Hr' as <-. done.
Qed.
End HalfRotation.

Lemma failed_rotation_consumes_the_token_witness :
  tokens (run samplePlatform (refreshAccessToken sampleEnv anonymousJWT)
            sampleWorld).2
  = <["alice-refresh-token" :=
        RefreshToken.withRevokedAt (clock samplePlatform 1) aliceToken]>
      (tokens sampleWorld)
  /\ (run samplePlatform (refreshAccessToken sampleEnv anonymousJWT)
        (run samplePlatform (refreshAccessToken sampleEnv anonymousJWT)
           sampleWorld).2).1
     = Err invalidRefreshToken.
Proof.
  apply (failed_rotation_consumes_the_token samplePlatform sampleEnv
           anonymousJWT sampleWorld "alice-refresh-token" aliceToken
           PrismaValidationError).
  - exact samplePlatform_healthy.
  - reflexivity.
  - discriminate.
  - reflexivity.
  - split; [reflexivity | simpl; lia].
  - vm_compute. reflexivity.
Defined.

(** ** Worked instances *)

Lemma refreshIfDue_never_rotates_witness :
  exists w',
    run samplePlatform (refreshIfDue sampleEnv aliceJWT) sampleWorld
    = (Ok (if (negb (1700000001000 =? 0)%Z && Js.truthy "alice-refresh-token"
               && (1700000001000 <? clock samplePlatform (ticks sampleWorld))%Z)%bool
           then JWT.withError "RefreshAccessTokenError" aliceJWT
           else aliceJWT), w')
    /\ tokens w' = tokens sampleWorld /\ users w' = users sampleWorld.
Proof.
  apply (refreshIfDue_never_rotates samplePlatform sampleEnv aliceJWT
           sampleWorld "alice-refresh-token" 1700000001000).
  - exact samplePlatform_healthy.
  - exact samplePlatform_monotone.
  - reflexivity.
  - reflexivity.
  - intros r Hr. cbn [tokens sampleWorld] in Hr.
    apply lookup_singleton_Some in Hr as [_ <-]. simpl. lia.
Defined.

Lemma jwt_returns_witness :
  exists token' w',
    run samplePlatform (jwt sampleEnv aliceJWT None None None None) sampleWorld
    = (Ok token', w').
Proof.
  apply (jwt_returns samplePlatform sampleEnv aliceJWT None None None None
           sampleWorld).
  by left.
Defined.

Lemma jwt_update_signs_session_userId_witness :
  exists token' w',
    run samplePlatform
      (jwt sampleEnv aliceJWT None None (Some "update") (Some forgedUpdate))
      sampleWorld
    = (Ok token', w')
    /\ JWT.userId token' = Some "u2"
    /\ JWT.accessToken token' = Some "jwt.u2.1700000900".
Proof.
  apply (jwt_update_signs_session_userId samplePlatform sampleEnv aliceJWT
           forgedUpdate None "u2" "jwt.u2.1700000900" sampleWorld).
  - reflexivity.
  - discriminate.
  - vm_compute. reflexivity.
Defined.

Lemma jwt_sign_in_witness :
  exists token' w',
    run samplePlatform
      (jwt sampleEnv JWT.empty (Some (AuthUser.ofUser alice)) (Some "google")
         (Some "signIn") None) sampleWorld
    = (Ok token', w')
    /\ JWT.userId token' = Some "u1"
    /\ JWT.email token' = Some "alice@example.com"
    /\ JWT.refreshToken token' = Some (nextToken samplePlatform sampleWorld)
    /\ JWT.refreshTokenExpires token'
       = Some (clock samplePlatform 1 + REFRESH_TOKEN_TTL sampleEnv * 1000)%Z
    /\ tokens w' =
       <[nextToken samplePlatform sampleWorld :=
           RefreshToken.mk "u1" (nextToken samplePlatform sampleWorld)
             (clock samplePlatform 0 + REFRESH_TOKEN_TTL sampleEnv * 1000)%Z
             None]> (tokens sampleWorld)
    /\ users w' = users sampleWorld.
Proof.
  apply (jwt_sign_in samplePlatform sampleEnv JWT.empty (AuthUser.ofUser alice)
           alice "google" (Some "signIn") None sampleWorld).
  - exact samplePlatform_healthy.
  - exact samplePlatform_monotone.
  - discriminate.
  - reflexivity.
  - vm_compute. reflexivity.
Defined.

Lemma POST_signing_failure_witness :
  run samplePlatform (POST samplePlatform (withoutSecret sampleEnv) aliceRequest)
    sampleWorld
  = (Ok refreshFailedResponse,
     logged "Token refresh error:"
       (afterRotation samplePlatform (withoutSecret sampleEnv)
          "alice-refresh-token" aliceToken "u1" sampleWorld)).
Proof.
  apply (POST_signing_failure samplePlatform (withoutSecret sampleEnv)
           aliceRequest sampleWorld "alice-refresh-token" aliceToken alice
           JOSEError).
  - exact samplePlatform_healthy.
  - vm_compute. reflexivity.
  - vm_compute. reflexivity.
  - split; [reflexivity | simpl; lia].
  - reflexivity.
  - vm_compute. reflexivity.
  - reflexivity.
Defined.

Lemma unparsable_cookie_header_witness :
  run samplePlatform (POST samplePlatform sampleEnv brokenRequest) sampleWorld
  = (Ok refreshFailedResponse, logged "Token refresh error:" sampleWorld)
  /\ run samplePlatform (DELETE samplePlatform brokenRequest) sampleWorld
     = (Ok revocationFailedResponse,
        logged "Token revocation error:" sampleWorld).
Proof.
  apply (unparsable_cookie_header samplePlatform sampleEnv brokenRequest
           sampleWorld URIError).
  vm_compute. reflexivity.
Defined.

Lemma DELETE_then_POST_witness :
  (run samplePlatform (POST samplePlatform sampleEnv aliceRequest)
     (run samplePlatform (DELETE samplePlatform aliceRequest) sampleWorld).2).1
  = Ok invalidRefreshTokenResponse.
Proof.
  apply (DELETE_then_POST samplePlatform sampleEnv aliceRequest sampleWorld
           "alice-refresh-token").
  - exact samplePlatform_healthy.
  - vm_compute. reflexivity.
Defined.

Lemma signOut_then_refresh_witness :
  (run samplePlatform (refreshAccessToken sampleEnv aliceJWT)
     (run samplePlatform (signOut (Some aliceJWT)) sampleWorld).2).1
  = Err invalidRefreshToken.
Proof.
  apply (signOut_then_refresh samplePlatform sampleEnv aliceJWT sampleWorld
           "alice-refresh-token").
  - exact samplePlatform_healthy.
  - reflexivity.
  - discriminate.
Defined.

Lemma rotation_chain_witness :
  let w1 := afterRotation samplePlatform sampleEnv "alice-refresh-token"
              aliceToken "u1" sampleWorld in
  let token1 := JWT.withRefresh (nextToken samplePlatform sampleWorld)
                  (clock samplePlatform 3 + REFRESH_TOKEN_TTL sampleEnv * 1000)%Z
                  aliceJWT in
  exists token2 w2,
    run samplePlatform (refreshAccessToken sampleEnv token1) w1 = (Ok token2, w2)
    /\ JWT.refreshToken token2 = Some (nextToken samplePlatform w1)
    /\ JWT.userId token2 = JWT.userId aliceJWT.
Proof.
  apply (rotation_chain samplePlatform sampleEnv aliceJWT _ sampleWorld).
  - exact samplePlatform_healthy.
  - vm_compute. reflexivity.
  - simpl. lia.
  - vm_compute. reflexivity.
Defined.

Lemma authorize_after_hashPassword_witness :
  let out :=
    (run samplePlatform
       (authorize samplePlatform sampleEnv
          (credentialsOf (User.email carol) "password123")) carolWorld).1 in
  ("password123" = "password123" -> out = Ok (Some (AuthUser.ofUser carol)))
  /\ (out = Ok (Some (AuthUser.ofUser carol)) \/ out = Ok None)
  /\ (out = Ok (Some (AuthUser.ofUser carol))
      <-> scrypt samplePlatform "password123"
            (saltOf samplePlatform sampleWorld) 64
          = scrypt samplePlatform "password123"
              (saltOf samplePlatform sampleWorld) 64).
Proof.
  apply (authorize_after_hashPassword samplePlatform sampleEnv carol
           "password123" "password123"
           (saltOf samplePlatform sampleWorld +:+ ":"
            +:+ toHex (scrypt samplePlatform "password123"
                         (saltOf samplePlatform sampleWorld) 64))
           sampleWorld (draw 16 sampleWorld) carolWorld).
  - reflexivity.
  - discriminate.
  - discriminate.
  - reflexivity.
  - reflexivity.
  - reflexivity.
  - reflexivity.
Defined.

Lemma whitelist_on_every_path_witness :
  (forall u,
      (run samplePlatform
         (authorize samplePlatform (withWhitelist "company.com" sampleEnv)
            (credentialsOf "alice@example.com" "pw")) sampleWorld).1
      <> Ok (Some u))
  /\ ("google" <> "credentials" ->
      signIn (withWhitelist "company.com" sampleEnv)
        (Some "alice@example.com") (Some "google") = false).
Proof.
  apply (whitelist_on_every_path samplePlatform
           (withWhitelist "company.com" sampleEnv) "alice@example.com" "pw"
           "google" sampleWorld).
  - discriminate.
  - reflexivity.
Defined.

Lemma parseCookies_header_witness :
  parseCookies samplePlatform (Some (cookieHeaderOf aliceCookies))
  = Ok (foldl (fun m c => <[c.1 := c.2]> m) ∅ aliceCookies).
Proof.
  apply (parseCookies_header samplePlatform (fun v => v) aliceCookies).
  - repeat constructor; discriminate.
  - repeat constructor; discriminate.
Defined.

Lemma ALLOWED_DOMAINS_configured_witness :
  ALLOWED_DOMAINS (withWhitelist "company.com, partner.com" sampleEnv)
  = ["company.com"; "partner.com"].
Proof.
  apply (ALLOWED_DOMAINS_configured
           (withWhitelist "company.com, partner.com" sampleEnv) " "
           ["company.com"; "partner.com"]).
  - reflexivity.
  - repeat constructor; discriminate.
  - reflexivity.
Defined.

Lemma isEmailAllowed_address_witness :
  (isEmailAllowed sampleEnv ("alice" +:+ "@" +:+ "Example.COM") = true
   <-> Js.toLowerCase "Example.COM" ∈ ALLOWED_DOMAINS sampleEnv)
  /\ isEmailAllowed sampleEnv "alice" = false.
Proof.
  apply (isEmailAllowed_address sampleEnv "alice" "Example.COM").
  - discriminate.
  - reflexivity.
  - reflexivity.
Defined.

Lemma extractDomain_of_allowed_witness :
  exists d, extractDomain "alice@Example.com" = Some d
            /\ d ∈ ALLOWED_DOMAINS sampleEnv.
Proof.
  apply (extractDomain_of_allowed sampleEnv "alice@Example.com").
  - discriminate.
  - reflexivity.
Defined.

Lemma verifyPassword_pieces_witness :
  verifyPassword samplePlatform "pw" "00ff" = false
  /\ verifyPassword samplePlatform "pw"
       ("00ff" +:+ ":" +:+ "7077" +:+ ":" +:+ "tail")
     = verifyPassword samplePlatform "pw" ("00ff" +:+ ":" +:+ "7077").
Proof.
  apply (verifyPassword_pieces samplePlatform "pw" "00ff" "7077" "tail");
    reflexivity.
Defined.

Lemma setAuthCookie_presented_witness :
  let pair := "refresh-token=" +:+ encodeURIComponent samplePlatform "0a1b2c" in
  (exists attributes,
      setAuthCookie samplePlatform sampleEnv "refresh-token" "0a1b2c" 2592000
        noOptions
      = pair +:+ "; " +:+ attributes)
  /\ presented samplePlatform {| cookieHeader := Some pair |}
     = Ok (Some "0a1b2c").
Proof.
  apply (setAuthCookie_presented samplePlatform sampleEnv "0a1b2c" 2592000).
  - discriminate.
  - split; [discriminate | reflexivity].
  - reflexivity.
Defined.
